(** * Momento backend: the in-memory response cache, the cache middleware,
    the like mutation and the realtime socket registry.

    Sources embedded here:
    - [src/utils/responseFormatter.js], section CACHE UTILITY
      (imported elsewhere as [utils/cache.js]): [get], [set], [del],
      [delPattern], [clear], [cleanup], [getCacheKey];
    - [src/middleware/cache.js]: [cacheMiddleware], [invalidateCache];
    - [src/middleware/errorHandler.js]: [errorHandler], the app's last
      middleware ([src/index.js]);
    - [src/unnamed/part_009]: the route handlers [getPostById], [likePost];
    - [src/unnamed/part_013]: the socket.io [authenticate] and [disconnect]
      handlers and the [userSockets] map.

    Times ([Date.now()]) are milliseconds, modelled as [Z] and passed
    explicitly to every operation that reads the clock. A JavaScript [Map] is
    modelled as an association list in insertion order: [Map.set] on a
    present key updates it in place, on an absent key appends it. *)

From Stdlib Require Import String Ascii ZArith List Bool Lia.
From Stdlib Require Import Sorting.Sorted Sorting.Permutation RelationClasses.
Import ListNotations.

Open Scope Z_scope.

(** ** JavaScript [Map] with string keys *)

Section JsMap.
Variable V : Type.

Definition jsmap := list (string * V).

  (** [m.get(k)] *)
Fixpoint map_get (k : string) (m : jsmap) : option V :=
    match m with
    | [] => None
    | (k', v) :: r => if String.eqb k' k then Some v else map_get k r
    end.

  (** [m.set(k, v)]: in place when present, appended otherwise. *)
Fixpoint map_set (k : string) (v : V) (m : jsmap) : jsmap :=
    match m with
    | [] => [(k, v)]
    | (k', v') :: r =>
        if String.eqb k' k then (k, v) :: r else (k', v') :: map_set k v r
    end.

  (** [m.delete(k)] (the result [m] without the entry of [k]). *)
Definition map_delete (k : string) (m : jsmap) : jsmap :=
    filter (fun p => negb (String.eqb (fst p) k)) m.

  (** [m.has(k)], the boolean [m.delete(k)] returns. *)
Definition map_has (k : string) (m : jsmap) : bool :=
    existsb (fun p => String.eqb (fst p) k) m.

Definition map_keys (m : jsmap) : list string := map fst m.
End JsMap.

Arguments map_get {V} k m.
Arguments map_set {V} k v m.
Arguments map_delete {V} k m.
Arguments map_has {V} k m.
Arguments map_keys {V} m.

(** ** Cached payloads

    A payload is the JavaScript value handed to [res.json]: [null], or some
    JSON document, kept as its serialised text. *)
Inductive jsval :=
| JNull
| JData (body : string).

(** Cache entry structure: [{ data, expiresAt, createdAt }]. *)
Record entry := mkEntry {
  data : jsval;
  expiresAt : Z;
  createdAt : Z
}.

Definition cache_store := jsmap entry.

Definition DEFAULT_TTL : Z := 5 * 60 * 1000.
Definition MAX_CACHE_SIZE : nat := 1000.

(** [Math.floor(MAX_CACHE_SIZE * 0.1)]: [1000 * 0.1] is exactly [100] in
    binary64, so the count is [100]. *)
Definition toRemove : nat := Nat.div MAX_CACHE_SIZE 10.

(** [getCacheKey(prefix, id)] is the template [`${prefix}:${id}`]. *)
Definition getCacheKey (prefix id : string) : string :=
  (prefix ++ ":" ++ id)%string.

(** [get(key)]: a missing entry and an expired one both give [null]; the
    expired one is deleted first. *)
Definition get (now : Z) (key : string) (c : cache_store) : jsval * cache_store :=
  match map_get key c with
  | None => (JNull, c)
  | Some e =>
      if Z.ltb (expiresAt e) now then (JNull, map_delete key c)
      else (data e, c)
  end.

(** [entries.sort((a, b) => a[1].createdAt - b[1].createdAt)]: the array
    sort of JavaScript is stable, so this is a stable insertion sort. *)
Fixpoint insert_by_created (p : string * entry) (l : list (string * entry))
  : list (string * entry) :=
  match l with
  | [] => [p]
  | q :: r =>
      if Z.leb (createdAt (snd p)) (createdAt (snd q)) then p :: q :: r
      else q :: insert_by_created p r
  end.

Fixpoint sort_by_created (l : list (string * entry)) : list (string * entry) :=
  match l with
  | [] => []
  | p :: r => insert_by_created p (sort_by_created r)
  end.

(** The entries removed by the eviction loop:
    [for (let i = 0; i < toRemove; i++) cache.delete(entries[i][0])].
    The loop only runs when [cache.size >= 1000], so [entries[i]] is always
    defined there. *)
Definition evicted (c : cache_store) : list (string * entry) :=
  firstn toRemove (sort_by_created c).

Definition evict (c : cache_store) : cache_store :=
  if Nat.leb MAX_CACHE_SIZE (length c)
  then fold_left (fun acc p => map_delete (fst p) acc) (evicted c) c
  else c.

(** [set(key, data, ttl)]: evict first when full, then
    [cache.set(key, { data, expiresAt: now + ttl, createdAt: now })].
    It always returns [true]; the model returns the new store. *)
Definition set (now ttl : Z) (key : string) (d : jsval) (c : cache_store)
  : cache_store :=
  map_set key (mkEntry d (now + ttl) now) (evict c).

(** [del(key)] returns [cache.delete(key)]. *)
Definition del (key : string) (c : cache_store) : bool * cache_store :=
  (map_has key c, map_delete key c).

(** [pattern.replace('*', '')]: a string pattern replaces its first match
    only. *)
Fixpoint replace_first_star (s : string) : string :=
  match s with
  | EmptyString => EmptyString
  | String a r =>
      if Ascii.eqb a "*"%char then r else String a (replace_first_star r)
  end.

(** The loop of [delPattern] over [cache.keys()]: deleting the key being
    visited does not disturb the iteration over the remaining keys. *)
Fixpoint delPattern_loop (prefix : string) (keys : list string)
  (deleted : nat) (c : cache_store) : nat * cache_store :=
  match keys with
  | [] => (deleted, c)
  | k :: ks =>
      if String.prefix prefix k
      then delPattern_loop prefix ks (S deleted) (map_delete k c)
      else delPattern_loop prefix ks deleted c
  end.

Definition delPattern (pattern : string) (c : cache_store) : nat * cache_store :=
  delPattern_loop (replace_first_star pattern) (map_keys c) O c.

(** [clear()] returns the former size. *)
Definition clear (c : cache_store) : nat * cache_store := (length c, []).

(** [cleanup()], run every 5 minutes. *)
Definition cleanup (now : Z) (c : cache_store) : nat * cache_store :=
  (length (filter (fun p => Z.ltb (expiresAt (snd p)) now) c),
   filter (fun p => negb (Z.ltb (expiresAt (snd p)) now)) c).

(** A cache operation at a given time, for traces of cache activity. *)
Inductive cache_op :=
| OpGet (key : string)
| OpSet (key : string) (d : jsval) (ttl : Z)
| OpDel (key : string)
| OpDelPattern (pattern : string)
| OpClear
| OpCleanup.

Definition cache_step (now : Z) (o : cache_op) (c : cache_store) : cache_store :=
  match o with
  | OpGet k => snd (get now k c)
  | OpSet k d ttl => set now ttl k d c
  | OpDel k => snd (del k c)
  | OpDelPattern p => snd (delPattern p c)
  | OpClear => snd (clear c)
  | OpCleanup => snd (cleanup now c)
  end.

Fixpoint cache_run (tr : list (Z * cache_op)) (c : cache_store) : cache_store :=
  match tr with
  | [] => c
  | (t, o) :: r => cache_run r (cache_step t o c)
  end.

(** Keys of a [Map] are pairwise distinct. *)
Fixpoint keys_unique {V} (m : jsmap V) : bool :=
  match m with
  | [] => true
  | (k, _) :: r => negb (map_has k r) && keys_unique r
  end.

(** An operation that leaves the entry of [k] in place: it neither deletes
    [k] explicitly, nor matches it by a pattern, nor clears the cache, nor
    stores [k] anew, nor evicts [k] as one of the oldest entries. *)
Definition op_keeps (k : string) (o : cache_op) (c : cache_store) : bool :=
  match o with
  | OpGet _ | OpCleanup => true
  | OpSet k' _ _ =>
      negb (String.eqb k' k)
      && negb (Nat.leb MAX_CACHE_SIZE (length c) && map_has k (evicted c))
  | OpDel k' => negb (String.eqb k' k)
  | OpDelPattern p => negb (String.prefix (replace_first_star p) k)
  | OpClear => false
  end.

Fixpoint trace_keeps (k : string) (tr : list (Z * cache_op)) (c : cache_store)
  : bool :=
  match tr with
  | [] => true
  | (t, o) :: r => op_keeps k o c && trace_keeps k r (cache_step t o c)
  end.

(** No [set] of [k] in a trace. *)
Definition no_set_of (k : string) (tr : list (Z * cache_op)) : bool :=
  forallb (fun p => match snd p with
                    | OpSet k' _ _ => negb (String.eqb k' k)
                    | _ => true
                    end) tr.

(** ** The cache middleware ([src/middleware/cache.js]) *)

Record request := mkRequest {
  method : string;
  postId : string
}.

(** An error a route handler throws: a plain [Error] (its [name] is
    "Error" and it has no [code]) with its [message] ("" when empty), its
    [statusCode] and [status] (0 when absent) and its [stack]. *)
Record js_error := mkError {
  err_message : string;
  err_statusCode : Z;
  err_status : Z;
  err_stack : string
}.

(** What a route handler does with the response: [res.status(s).json(b)]
    (the status defaults to 200), or an error it throws synchronously. *)
Inductive hresult :=
| HJson (status : Z) (body : jsval)
| HThrow (err : js_error).

(** [errorHandler(err, req, res, next)] ([src/middleware/errorHandler.js]),
    registered last by [src/index.js], for such an error while
    [process.env.NODE_ENV] is [node_env]: the status and the body it hands
    to [res.status(statusCode).json(...)]. Neither Mongoose branch applies
    to a plain [Error], so [details] stays [null] and adds no field. *)
Definition errorHandler (node_env : string) (e : js_error) : Z * jsval :=
  let statusCode :=
    if negb (Z.eqb (err_statusCode e) 0) then err_statusCode e
    else if negb (Z.eqb (err_status e) 0) then err_status e
    else 500 in
  let message :=
    if String.eqb (err_message e) "" then "Internal Server Error"%string
    else err_message e in
  let message :=
    if String.eqb node_env "production" && Z.eqb statusCode 500
    then "Internal Server Error"%string else message in
  (statusCode,
   JData ("error:" ++ message
          ++ (if String.eqb node_env "development"
              then ";stack:" ++ err_stack e else ""))%string).

(** The call that reaches [res.json] for a handler's outcome: the handler's
    own [res.status(st).json(body)]; for a thrown error, Express catches it
    and calls [next(err)], which skips the ordinary middleware and runs
    [errorHandler]. *)
Definition express_response (node_env : string) (r : hresult) : Z * jsval :=
  match r with
  | HJson st d => (st, d)
  | HThrow e => errorHandler node_env e
  end.

Record cache_options := mkOptions {
  prefix : string;
  ttl : Z;
  keyGenerator : request -> string;
  skipCache : request -> bool
}.

Definition default_skipCache (req : request) : bool :=
  existsb (String.eqb (method req)) ["POST"; "PUT"; "DELETE"; "PATCH"]%string.

(** The response the client receives, the cache afterwards, and whether the
    wrapped handler ran. *)
Record mw_outcome := mkOutcome {
  response : hresult;
  cache_after : cache_store;
  handler_invoked : bool
}.

(** [cacheMiddleware(options)] applied to a request, followed by the wrapped
    handler when [next()] is called. [now] is the time of the lookup and
    [tresp] the time at which the handler calls [res.json] (after its
    awaits). On a miss [res.json] is replaced by a function that calls
    [cache.set(cacheKey, data, ttl)] and then the original [res.json]; the
    status set by the handler is not looked at. On a hit the cached data is
    sent with [res.json], i.e. with the default status 200. An error the
    handler throws goes through [next(err)] to [errorHandler], whose
    [res.status(...).json(...)] is the replaced [res.json] on a miss. *)
Definition cacheMiddleware (node_env : string) (o : cache_options)
  (handler : request -> hresult) (now tresp : Z) (req : request)
  (c : cache_store) : mw_outcome :=
  if negb (String.eqb (method req) "GET") || skipCache o req
  then let (st, d) := express_response node_env (handler req) in
       mkOutcome (HJson st d) c true
  else
    let cacheKey := keyGenerator o req in
    let (cachedData, c1) := get now cacheKey c in
    match cachedData with
    | JData _ => mkOutcome (HJson 200 cachedData) c1 false
    | JNull =>
        let (st, d) := express_response node_env (handler req) in
        mkOutcome (HJson st d) (set tresp (ttl o) cacheKey d c1) true
    end.

(** The same request served repeatedly; each element gives the lookup time
    and the response time of one request. *)
Fixpoint serve_all (node_env : string) (o : cache_options)
  (handler : request -> hresult) (req : request) (times : list (Z * Z))
  (c : cache_store) : list mw_outcome :=
  match times with
  | [] => []
  | (now, tresp) :: r =>
      let out := cacheMiddleware node_env o handler now tresp req c in
      out :: serve_all node_env o handler req r (cache_after out)
  end.

(** ** Posts ([src/unnamed/part_009]) *)

Record post := mkPost {
  post_id : string;
  creator : string;
  likes : list string
}.

Definition post_db := jsmap post.

(** The JSON text of a post document. *)
Definition post_json (p : post) : string :=
  ("_id:" ++ post_id p ++ ";creator:" ++ creator p ++ ";likes:["
   ++ String.concat "," (likes p) ++ "]")%string.

(** [formatSuccessResponse(post)] for a single document. *)
Definition formatSuccess_one (p : post) : string :=
  ("documents:[" ++ post_json p ++ "]")%string.

(** [formatErrorResponse(message, code)]. *)
Definition formatError (message code : string) : string :=
  ("error:" ++ message ++ ";code:" ++ code)%string.

(** [getPostById]: the store either answers, or its call rejects with
    [db_error]. *)
Definition getPostById (db : post_db) (db_error : option string)
  (req : request) : hresult :=
  match db_error with
  | Some _ => HJson 500 (JData (formatError "Failed to fetch post" "INTERNAL_ERROR"))
  | None =>
      match map_get (postId req) db with
      | None => HJson 404 (JData (formatError "Post not found" "POST_NOT_FOUND"))
      | Some p => HJson 200 (JData (formatSuccess_one p))
      end
  end.

(** The options of the route [GET /api/posts/:postId]. *)
Definition post_cache_options : cache_options :=
  mkOptions "post" (3 * 60 * 1000) (fun req => getCacheKey "post" (postId req))
    default_skipCache.

(** [invalidateCache(prefix, id = null)]: [if (id)] deletes the single key,
    otherwise every key under [`${prefix}:*`]. An empty [id] is falsy. *)
Definition invalidateCache (prefix : string) (id : option string)
  (c : cache_store) : cache_store :=
  match id with
  | Some i =>
      if String.eqb i "" then snd (delPattern (getCacheKey prefix "*") c)
      else snd (del (getCacheKey prefix i) c)
  | None => snd (delPattern (getCacheKey prefix "*") c)
  end.

(** ** Mutation handlers: state and exceptions

    A handler runs over a [world]: the post store, the cache and a log of
    the observable calls it makes. Two knobs describe failures of the
    collaborators: [db_error] makes every call of the post store reject
    with that message; [cache_fault] makes the [Map.delete] primitive of the
    cache throw with that message. An exception keeps the effects done
    before it, as in JavaScript. *)

Inductive effect :=
| EffDbWrite (id : string)
| EffInvalidate (prefix : string) (id : option string)
| EffEmit (room : string) (event : string).

Record world := mkWorld {
  w_db : post_db;
  w_cache : cache_store;
  w_log : list effect;
  db_error : option string;
  cache_fault : option string
}.

Inductive throws (A : Type) :=
| Ret (a : A)
| Throw (message : string).
Arguments Ret {A} a.
Arguments Throw {A} message.

Definition M (A : Type) := world -> throws A * world.

Definition ret {A} (a : A) : M A := fun w => (Ret a, w).

Definition bind {A B} (m : M A) (f : A -> M B) : M B :=
  fun w => match m w with
           | (Ret a, w') => f a w'
           | (Throw e, w') => (Throw e, w')
           end.

Notation "x <- m ;; k" := (bind m (fun x => k))
  (at level 61, m at next level, right associativity).

(** [try { m } catch (e) { h(e) }] *)
Definition try_catch {A} (m : M A) (h : string -> M A) : M A :=
  fun w => match m w with
           | (Throw e, w') => h e w'
           | r => r
           end.

Definition log_effect (e : effect) : M unit :=
  fun w => (Ret tt, mkWorld (w_db w) (w_cache w) (w_log w ++ [e])
                             (db_error w) (cache_fault w)).

(** [cache.delete(key)] inside the cache module. *)
Definition cache_delete (key : string) : M bool :=
  fun w => match cache_fault w with
           | Some m => (Throw m, w)
           | None => (Ret (map_has key (w_cache w)),
                      mkWorld (w_db w) (map_delete key (w_cache w)) (w_log w)
                              (db_error w) (cache_fault w))
           end.

Fixpoint delPattern_loopM (prefix : string) (keys : list string) (deleted : nat)
  : M nat :=
  match keys with
  | [] => ret deleted
  | k :: ks =>
      if String.prefix prefix k
      then _ <- cache_delete k ;; delPattern_loopM prefix ks (S deleted)
      else delPattern_loopM prefix ks deleted
  end.

Definition delPatternM (pattern : string) : M nat :=
  fun w => delPattern_loopM (replace_first_star pattern) (map_keys (w_cache w)) O w.

(** [invalidateCache] as called from a handler; the call is logged. *)
Definition invalidateCacheM (prefix : string) (id : option string) : M unit :=
  _ <- log_effect (EffInvalidate prefix id) ;;
  match id with
  | Some i =>
      if String.eqb i "" then _ <- delPatternM (getCacheKey prefix "*") ;; ret tt
      else _ <- cache_delete (getCacheKey prefix i) ;; ret tt
  | None => _ <- delPatternM (getCacheKey prefix "*") ;; ret tt
  end.

(** [dao.findPostById(id)] *)
Definition dao_findPostById (id : string) : M (option post) :=
  fun w => match db_error w with
           | Some m => (Throw m, w)
           | None => (Ret (map_get id (w_db w)), w)
           end.

(** [dao.likePost(id, likes)]: sets the likes of the post, returns the
    updated post or [null]. *)
Definition dao_likePost (id : string) (l : list string) : M (option post) :=
  fun w => match db_error w with
           | Some m => (Throw m, w)
           | None =>
               match map_get id (w_db w) with
               | None => (Ret None, w)
               | Some p =>
                   let p' := mkPost (post_id p) (creator p) l in
                   (Ret (Some p'),
                    mkWorld (map_set id p' (w_db w)) (w_cache w)
                            (w_log w ++ [EffDbWrite id]) (db_error w) (cache_fault w))
               end
           end.

(** [io.to(room).emit(event, ...)] as seen from the handler. *)
Definition emit (room event : string) : M unit := log_effect (EffEmit room event).

(** How the two calls of the notifications store in [likePost] settle
    when the post store itself is up: [createNotification] may reject with
    [create_error]; [findNotificationById] may reject with [find_error],
    or resolve to a document ([find_found]) or to [null]. *)
Record notif_dao := mkNotifDao {
  create_error : option string;
  find_error : option string;
  find_found : bool
}.

(** [notificationsDao.createNotification({ user, actor, type, post })]. *)
Definition createNotification (nd : notif_dao) : M unit :=
  fun w => match db_error w with
           | Some m => (Throw m, w)
           | None => match create_error nd with
                     | Some m => (Throw m, w)
                     | None => (Ret tt, w)
                     end
           end.

(** [notificationsDao.findNotificationById(notification._id)]: whether it
    found the notification. *)
Definition findNotificationById (nd : notif_dao) : M bool :=
  fun w => match db_error w with
           | Some m => (Throw m, w)
           | None => match find_error nd with
                     | Some m => (Throw m, w)
                     | None => (Ret (find_found nd), w)
                     end
           end.

(** The notification block of [likePost], inside its own [try]/[catch].
    [io] is the second argument of [PostRoutes(app, io)], [true] when a
    socket.io server was passed. *)
Definition notify_like (io : bool) (nd : notif_dao) (creatorId : string) : M unit :=
  try_catch
    (_ <- createNotification nd ;;
     populatedNotification <- findNotificationById nd ;;
     if io && populatedNotification
     then _ <- emit ("user-" ++ creatorId) "new-notification" ;;
          emit ("user-" ++ creatorId) "notification-count-updated"
     else ret tt)
    (fun _ => ret tt).

(** Whether the notification block reaches its [if] with a document: both
    calls resolve and the second one finds the notification. *)
Definition notification_found (nd : notif_dao) : bool :=
  match create_error nd, find_error nd with
  | None, None => find_found nd
  | _, _ => false
  end.

Record like_request := mkLikeRequest {
  lr_postId : string;
  lr_likesArray : option (list string);  (* [None]: missing or not an array *)
  lr_currentUser : option string         (* the id of the session user *)
}.

(** [.map(String).filter((id) => id && id !== "")] *)
Definition normalize_likes (l : list string) : list string :=
  filter (fun s => negb (String.eqb s "")) l.

Definition str_mem (s : string) (l : list string) : bool :=
  existsb (String.eqb s) l.

(** [likePost] of [PUT /api/posts/:postId/like], in [PostRoutes(app, io)]
    of [src/unnamed/part_009]. Every call of [PostRoutes] in the repository
    ([src/index.js], [src/unnamed/part_012], [src/unnamed/part_013],
    [src/conversations/routes.js]) passes only [app], i.e. [io = false]. *)
Definition likePost (io : bool) (nd : notif_dao) (req : like_request) : M hresult :=
  try_catch
    (match lr_currentUser req with
     | None => ret (HJson 401 (JData "message:You must be logged in"))
     | Some u =>
     match lr_likesArray req with
     | None => ret (HJson 400 (JData "error:likesArray must be an array"))
     | Some likesArray =>
     existingPost <- dao_findPostById (lr_postId req) ;;
     match existingPost with
     | None => ret (HJson 404 (JData "error:Post not found"))
     | Some ex =>
     let normalizedLikesArray := normalize_likes likesArray in
     let isLiking := negb (str_mem u (normalize_likes (likes ex)))
                     && str_mem u normalizedLikesArray in
     updatedPost <- dao_likePost (lr_postId req) normalizedLikesArray ;;
     match updatedPost with
     | None => ret (HJson 404 (JData "error:Post not found"))
     | Some up =>
     populatedPost <- dao_findPostById (post_id up) ;;
     match populatedPost with
     | None => ret (HJson 404 (JData "error:Post not found after update"))
     | Some pp =>
     _ <- (if isLiking && negb (String.eqb (creator pp) u)
           then notify_like io nd (creator pp) else ret tt) ;;
     _ <- invalidateCacheM "post" (Some (lr_postId req)) ;;
     _ <- invalidateCacheM "posts" None ;;
     _ <- (if io then emit "*" "post-liked" else ret tt) ;;
     ret (HJson 200 (JData (post_json pp)))
     end end end end end)
    (fun e => ret (HJson 500 (JData ("error:" ++
                    (if String.eqb e "" then "Failed to like post" else e))))).

(** ** Realtime connections ([src/unnamed/part_013])

    socket.io keeps, per room, the set of socket ids that joined it; a
    disconnecting socket leaves every room. [userSockets] is the module's
    own [Map] from user id to socket id. (The room socket.io makes for each
    socket's own id is not used by the handlers and is left out.) *)

Record io_state := mkIo {
  rooms : jsmap (list string);
  userSockets : jsmap string
}.

Definition io_init : io_state := mkIo [] [].

Definition room_members (room : string) (st : io_state) : list string :=
  match map_get room (rooms st) with
  | Some l => l
  | None => []
  end.

(** [socket.join(room)]: adds to the room's set. *)
Definition join (sid room : string) (r : jsmap (list string)) : jsmap (list string) :=
  let l := match map_get room r with Some l => l | None => [] end in
  if str_mem sid l then r else map_set room (l ++ [sid]) r.

(** The [for ... of userSockets.entries()] loop of the [disconnect]
    handler: the first user whose socket id is [sid]. *)
Fixpoint first_user_of (sid : string) (m : jsmap string) : option string :=
  match m with
  | [] => None
  | (u, s) :: r => if String.eqb s sid then Some u else first_user_of sid r
  end.

(** [socket.on("authenticate", userId)]: [if (userId)], join the room
    [`user-${userId}`] and [userSockets.set(userId, socket.id)]. *)
Definition authenticate (sid userId : string) (st : io_state) : io_state :=
  if String.eqb userId "" then st
  else mkIo (join sid ("user-" ++ userId) (rooms st))
            (map_set userId sid (userSockets st)).

(** [socket.on("disconnect")]: socket.io removes the socket from its rooms;
    the handler deletes the first [userSockets] entry whose value is the
    socket id, then [break]s. *)
Definition disconnect (sid : string) (st : io_state) : io_state :=
  mkIo (map (fun p => (fst p, filter (fun s => negb (String.eqb s sid)) (snd p)))
            (rooms st))
       (match first_user_of sid (userSockets st) with
        | Some u => map_delete u (userSockets st)
        | None => userSockets st
        end).

Inductive sock_event :=
| Authenticate (sid userId : string)
| Disconnect (sid : string).

Definition sock_step (st : io_state) (e : sock_event) : io_state :=
  match e with
  | Authenticate sid u => authenticate sid u st
  | Disconnect sid => disconnect sid st
  end.

Definition sock_run (tr : list sock_event) : io_state :=
  fold_left sock_step tr io_init.

(** A delivery of an event with its payload to one socket. *)
Record delivery := mkDelivery {
  to_socket : string;
  ev_name : string;
  ev_payload : string
}.

(** [io.to(`user-${userId}`).emit(eventName, payload)]: one delivery per
    socket of the room; nothing else changes. *)
Definition emitToUser (st : io_state) (userId eventName payload : string)
  : list delivery :=
  map (fun s => mkDelivery s eventName payload) (room_members ("user-" ++ userId) st).

(** A connection is registered for [u] when it authenticated as [u] and
    has not disconnected since. *)
Fixpoint registered_for (u sid : string) (tr : list sock_event) : bool :=
  match tr with
  | [] => false
  | Authenticate s u' :: r =>
      (String.eqb s sid && String.eqb u' u
       && negb (existsb (fun e => match e with
                                  | Disconnect s' => String.eqb s' sid
                                  | _ => false
                                  end) r))
      || registered_for u sid r
  | Disconnect _ :: r => registered_for u sid r
  end.

(** Whether a string contains the character [*]. *)
Fixpoint has_star (s : string) : bool :=
  match s with
  | EmptyString => false
  | String a r => Ascii.eqb a "*"%char || has_star r
  end.

(** The cache holds no non-null payload under [key]. *)
Definition holds_no_payload (key : string) (c : cache_store) : bool :=
  match map_get key c with
  | None => true
  | Some e => match data e with JNull => true | JData _ => false end
  end.

(** ** Concrete inputs *)

(** Decimal digits of a number, for generating many distinct keys. *)
Fixpoint digits_aux (fuel n : nat) (acc : string) : string :=
  match fuel with
  | O => acc
  | S f =>
      let acc' := String (ascii_of_nat (48 + Nat.modulo n 10)) acc in
      if Nat.ltb n 10 then acc' else digits_aux f (Nat.div n 10) acc'
  end.

Definition nat_key (n : nat) : string := ("k" ++ digits_aux 10 n "")%string.

(** [n] stores of distinct keys at time [t]. *)
Definition fill_trace (t : Z) (n : nat) : list (Z * cache_op) :=
  map (fun i => (t, OpSet (nat_key i) (JData "x") DEFAULT_TTL)) (seq 0 n).

(** ** Cache statistics ([getStats] of the cache utility) *)

Record cache_stats := mkStats {
  st_total : nat;
  st_active : nat;
  st_expired : nat;
  st_maxSize : nat
}.

(** [getStats()] at time [now]: an entry with [now > expiresAt] counts as
    expired, every other one as active. *)
Definition getStats (now : Z) (c : cache_store) : cache_stats :=
  mkStats (length c)
    (length (filter (fun p => negb (Z.ltb (expiresAt (snd p)) now)) c))
    (length (filter (fun p => Z.ltb (expiresAt (snd p)) now) c))
    MAX_CACHE_SIZE.

(** ** JavaScript values ([src/utils/responseFormatter.js] and the id
    mapper of [src/unnamed/part_000])

    A value as the formatters see it; numbers are integers here. An object
    is the list of its own properties in enumeration order (no two with the
    same name); it stands for a plain object, such as the literal
    [{ message: ... }] a handler builds. *)
#[warnings="-register-all"]
Inductive json :=
| JSUndef
| JSNull
| JSBool (b : bool)
| JSNum (n : Z)
| JSStr (s : string)
| JSArr (l : list json)
| JSObj (fields : list (string * json)).

(** JavaScript truthiness. *)
Definition truthy (v : json) : bool :=
  match v with
  | JSUndef | JSNull => false
  | JSBool b => b
  | JSNum n => negb (Z.eqb n 0)
  | JSStr s => negb (String.eqb s "")
  | JSArr _ | JSObj _ => true
  end.

(** [a || b] *)
Definition js_or (a b : json) : json := if truthy a then a else b.

(** [v.k] for the property names read here ([_id], [id], [$id],
    [creator]): an own property of an object; [undefined] on any other
    value (strings and arrays have no such property). *)
Definition prop (k : string) (v : json) : json :=
  match v with
  | JSObj f => match map_get k f with Some x => x | None => JSUndef end
  | _ => JSUndef
  end.

(** [typeof v === "object"] for a truthy [v]. *)
Definition is_object (v : json) : bool :=
  match v with
  | JSNull | JSArr _ | JSObj _ => true
  | _ => false
  end.

(** [extractId(obj)] *)
Definition extractId (obj : json) : json :=
  if negb (truthy obj) then JSNull
  else js_or (js_or (js_or (prop "_id" obj) (prop "id" obj)) (prop "$id" obj)) JSNull.

(** The decimal text of an index, the key of an array element or of a
    character of a string. *)
Definition index_key (i : nat) : string := digits_aux 10 i "".

Fixpoint spread_string (i : nat) (s : string) : list (string * json) :=
  match s with
  | EmptyString => []
  | String a r => (index_key i, JSStr (String a EmptyString)) :: spread_string (S i) r
  end.

Fixpoint spread_list (i : nat) (l : list json) : list (string * json) :=
  match l with
  | [] => []
  | x :: r => (index_key i, x) :: spread_list (S i) r
  end.

(** [{ ...v }]: the own properties of an object; the characters of a
    string and the elements of an array under the keys "0", "1", ...;
    nothing for other values. *)
Definition spread (v : json) : list (string * json) :=
  match v with
  | JSObj f => f
  | JSStr s => spread_string 0 s
  | JSArr l => spread_list 0 l
  | _ => []
  end.

(** [o._id = id; o.id = id; o.$id = id], or the same three properties
    written after a spread in an object literal. *)
Definition set_ids (id : json) (f : list (string * json)) : list (string * json) :=
  map_set "$id" id (map_set "id" id (map_set "_id" id f)).

(** [mapIdForFrontend(obj)] *)
Definition mapIdForFrontend (obj : json) : json :=
  if negb (truthy obj) then obj
  else
    let id := extractId obj in
    let m1 := if truthy id then set_ids id (spread obj) else spread obj in
    let cr := prop "creator" obj in
    let m2 :=
      if truthy cr && is_object cr then
        let cid := extractId cr in
        if truthy cid then map_set "creator" (JSObj (set_ids cid (spread cr))) m1 else m1
      else m1 in
    JSObj m2.

(** [normalizeId(obj)] on an object: [obj._id = id] when an id is found
    and [obj._id] is falsy; the object is returned. *)
Definition normalizeId (obj : json) : json :=
  if negb (truthy obj) then obj
  else
    let id := extractId obj in
    if truthy id && negb (truthy (prop "_id" obj))
    then match obj with
         | JSObj f => JSObj (map_set "_id" id f)
         | _ => obj
         end
    else obj.

(** [mapIdsForFrontend(arr)] *)
Definition mapIdsForFrontend (v : json) : json :=
  match v with
  | JSArr l => JSArr (map mapIdForFrontend l)
  | _ => v
  end.

(** [total !== null] once the default [total = null] has replaced
    [undefined]. *)
Definition given (total : json) : bool :=
  match total with
  | JSUndef | JSNull => false
  | _ => true
  end.

(** [formatSuccessResponse(data, total)]; a single object is wrapped as
    [[mapIdsForFrontend(data)]], which returns a non-array unchanged. *)
Definition formatSuccessResponse (data total : json) : json :=
  match data with
  | JSArr _ =>
      JSObj (("documents"%string, mapIdsForFrontend data)
             :: (if given total then [("total"%string, total)] else []))
  | JSObj _ =>
      JSObj (("documents"%string, JSArr [mapIdsForFrontend data])
             :: (if given total then [("total"%string, JSNum 1)] else []))
  | _ => data
  end.

(** [formatErrorResponse(message, code, details)] *)
Definition formatErrorResponse (message code details : json) : json :=
  JSObj ([("error"%string, message)]
         ++ (if truthy code then [("code"%string, code)] else [])
         ++ (if truthy details then [("details"%string, details)] else [])).

(** ** The posts list route ([GET /api/posts] in [src/unnamed/part_009]) *)

(** [q || d] for a query parameter, [None] when it is absent. *)
Definition or_default (q : option string) (d : string) : string :=
  match q with
  | Some s => if String.eqb s "" then d else s
  | None => d
  end.

(** Its [keyGenerator]:
    [getCacheKey("posts", `${sortBy || "latest"}:${limit || 20}:${skip || 0}`)]. *)
Definition posts_list_key (sortBy limit skip : option string) : string :=
  getCacheKey "posts"
    (or_default sortBy "latest" ++ ":" ++ or_default limit "20" ++ ":"
     ++ or_default skip "0").

(** ** Tags of a post ([createPost] and [updatePost]) *)

(** [s.replace(/ /g, "")] *)
Fixpoint remove_spaces (s : string) : string :=
  match s with
  | EmptyString => EmptyString
  | String a r => if Ascii.eqb a " "%char then remove_spaces r else String a (remove_spaces r)
  end.

(** [s.split(",")]: [""] gives [[""]]. *)
Fixpoint split_comma (s : string) : list string :=
  match s with
  | EmptyString => [EmptyString]
  | String a r =>
      let segs := split_comma r in
      if Ascii.eqb a ","%char then EmptyString :: segs
      else match segs with
           | seg :: rest => String a seg :: rest
           | [] => [String a EmptyString]
           end
  end.

(** [tags.replace(/ /g, "").split(",").filter((tag) => tag)] *)
Definition parse_tags (s : string) : list string :=
  filter (fun t => negb (String.eqb t "")) (split_comma (remove_spaces s)).

(** No space and no comma in a string. *)
Fixpoint no_sep (s : string) : bool :=
  match s with
  | EmptyString => true
  | String a r => negb (Ascii.eqb a " "%char || Ascii.eqb a ","%char) && no_sep r
  end.

(** A well-formed tag: not empty, no space, no comma. *)
Definition tag_ok (t : string) : bool := negb (String.eqb t "") && no_sep t.

(** ** Post update and deletion ([updatePost], [deletePost] in
    [src/unnamed/part_009], with [dao.updatePost] and [dao.deletePost] of
    [src/Posts/dao.js] and the schema of [src/posts/schema.js])

    A stored post is the list of its fields. The store also knows which
    user ids exist, which decides what [populate("creator")] finds. What a
    write stores is left to a parameter [updateOne] (below), since it
    depends on Mongoose's casting of the values. *)
Definition post_doc := jsmap json.

Record post_store := mkStore {
  s_posts : jsmap post_doc;
  s_users : list string
}.

(** [req.session["currentUser"]]: its [_id] and [role]. *)
Record session_user := mkUser {
  user_id : string;
  user_role : string
}.

(** What the handler sends: [res.status(s).json(body)], or
    [sendSuccessResponse(res, post, s)] with the post read back from the
    store by id. *)
Inductive dresult :=
| DJson (status : Z) (body : json)
| DPost (status : Z) (id : string).

(** [post.creator._id] of the post [findPostById] returns: the creator's
    id when [populate] finds that user; [None] when [creator] comes back
    [null] and reading [_id] of it throws. *)
Definition populated_creator (st : post_store) (d : post_doc) : option string :=
  match map_get "creator" d with
  | Some (JSStr cid) => if str_mem cid (s_users st) then Some cid else None
  | _ => None
  end.

Definition image_fields : list string :=
  ["imageUrl"; "imageId"; "imageData"; "imageMimeType"; "thumbnailUrl";
   "thumbnailData"; "thumbnailMimeType"]%string.

Definition schema_paths : list string :=
  ["_id"; "creator"; "caption"; "imageUrl"; "imageId"; "imageData";
   "imageMimeType"; "thumbnailUrl"; "thumbnailData"; "thumbnailMimeType";
   "location"; "tags"; "likes"; "createdAt"; "updatedAt"]%string.

(** [postUpdates]: [{ ...req.body }] without the seven image fields, a
    non-empty string [tags] turned into the list of tags. *)
Definition post_updates (body : jsmap json) : jsmap json :=
  let u := filter (fun p => negb (str_mem (fst p) image_fields)) body in
  match map_get "tags" u with
  | Some (JSStr t) =>
      if String.eqb t "" then u else map_set "tags" (JSArr (map JSStr (parse_tags t))) u
  | _ => u
  end.

(** The [$set] object of [dao.updatePost]:
    [{ ...postUpdates, updatedAt: new Date() }]. *)
Definition update_set (now : Z) (body : jsmap json) : jsmap json :=
  map_set "updatedAt" (JSNum now) (post_updates body).

(** [model.updateOne({ _id: postId }, { $set })] is left as a parameter
    [updateOne] of [updatePost]: given the [$set] object and the stored
    document, the document afterwards, or [None] when the call rejects (a
    value Mongoose cannot cast, a change of [_id], the store being down).
    [mongo_set] is one such function, for the examples below: a strict
    [$set] of top-level schema paths whose values already have the
    schema's types (no casting, no dotted path such as "likes.0"); other
    paths are dropped, and a [$set] of [_id] to another id is refused. *)
Definition mongo_set (id : string) (upd : jsmap json) (d : post_doc)
  : option post_doc :=
  let upd' := filter (fun p => str_mem (fst p) schema_paths) upd in
  match map_get "_id" upd' with
  | Some (JSStr i) => if String.eqb i id then Some (fold_left (fun d p => map_set (fst p) (snd p) d) upd' d) else None
  | Some _ => None
  | None => Some (fold_left (fun d p => map_set (fst p) (snd p) d) upd' d)
  end.

Definition msg_body (m : string) : json := JSObj [("message"%string, JSStr m)].

(** Which store read of [updatePost] rejects, if any: the first
    [dao.findPostById(postId)], or the read-back [dao.findPostById(postId)]
    after [dao.updatePost]. *)
Inductive upd_fault :=
| NoFault
| FindRejects
| ReadBackRejects.

(** [updatePost] of [PUT /api/posts/:postId]. Every rejection lands in the
    [catch], which answers 500; a rejection of the read-back comes after
    the write and before the invalidations. *)
Definition updatePost (now : Z) (fault : upd_fault)
  (updateOne : jsmap json -> post_doc -> option post_doc)
  (user : option session_user) (postId : string) (body : jsmap json)
  (st : post_store) (c : cache_store) : dresult * post_store * cache_store :=
  let fail500 := DJson 500 (formatErrorResponse (JSStr "Failed to update post")
                              (JSStr "INTERNAL_ERROR") JSNull) in
  match user with
  | None => (DJson 401 (msg_body "You must be logged in"), st, c)
  | Some u =>
  match fault with
  | FindRejects => (fail500, st, c)
  | _ =>
  match map_get postId (s_posts st) with
  | None => (DJson 404 (msg_body "Post not found"), st, c)
  | Some d =>
  match populated_creator st d with
  | None => (fail500, st, c)
  | Some cid =>
  if negb (String.eqb cid (user_id u))
  then (DJson 403 (msg_body "You can only update your own posts"), st, c)
  else
  match updateOne (update_set now body) d with
  | None => (fail500, st, c)
  | Some d' =>
      let st' := mkStore (map_set postId d' (s_posts st)) (s_users st) in
      match fault with
      | ReadBackRejects => (fail500, st', c)
      | _ => (DPost 200 postId, st',
              invalidateCache "posts" None (invalidateCache "post" (Some postId) c))
      end
  end end end end end.

(** [deletePost] of [DELETE /api/posts/:postId]. *)
Definition deletePost (db_error : option string) (user : option session_user)
  (postId : string) (st : post_store) (c : cache_store)
  : dresult * post_store * cache_store :=
  let fail := (DJson 500 (formatErrorResponse (JSStr "Failed to delete post")
                            (JSStr "INTERNAL_ERROR") JSNull), st, c) in
  match user with
  | None => (DJson 401 (msg_body "You must be logged in"), st, c)
  | Some u =>
  match db_error with
  | Some _ => fail
  | None =>
  match map_get postId (s_posts st) with
  | None => (DJson 404 (msg_body "Post not found"), st, c)
  | Some d =>
  match populated_creator st d with
  | None => fail
  | Some cid =>
  if negb (String.eqb cid (user_id u)) && negb (String.eqb (user_role u) "ADMIN")
  then (DJson 403 (msg_body "You can only delete your own posts"), st, c)
  else
      (DJson 200 (formatSuccessResponse (msg_body "Post deleted successfully") JSNull),
       mkStore (map_delete postId (s_posts st)) (s_users st),
       invalidateCache "posts" None (invalidateCache "post" (Some postId) c))
  end end end end.

(** ** Further socket handlers ([src/unnamed/part_013]); ids are strings,
    [""] being the falsy one. *)

(** [socket.on("typing", { receiverId, senderId, isTyping })]: when both ids
    are truthy, [socket.to(`user-${receiverId}`).emit("user-typing", ...)]
    reaches every socket of that room except the sending socket [sid]. The
    payload is recorded by its [userId], [senderId]. *)
Definition typing (st : io_state) (sid receiverId senderId : string) : list delivery :=
  if negb (String.eqb receiverId "") && negb (String.eqb senderId "")
  then map (fun s => mkDelivery s "user-typing" senderId)
           (filter (fun s => negb (String.eqb s sid))
                   (room_members ("user-" ++ receiverId) st))
  else [].

(** A stored message of the conversations collection
    ([src/unnamed/part_005]): [read] defaults to [false], [createdAt] to
    the time of creation. *)
Record message := mkMessage {
  m_sender : string;
  m_receiver : string;
  m_content : string;
  m_read : bool;
  m_createdAt : Z
}.

(** The characters [String.prototype.trim] removes, in ASCII. *)
Definition js_ws (a : ascii) : bool :=
  existsb (Ascii.eqb a) [" "; "009"; "010"; "011"; "012"; "013"]%char.

Fixpoint trim_start (s : string) : string :=
  match s with
  | EmptyString => EmptyString
  | String a r => if js_ws a then trim_start r else s
  end.

(** [content.trim()] *)
Definition js_trim (s : string) : string :=
  string_of_list_ascii (rev (list_ascii_of_string
    (trim_start (string_of_list_ascii (rev (list_ascii_of_string (trim_start s))))))).

(** [socket.on("send-message", { senderId, receiverId, content })] from the
    socket [sid]: the deliveries it makes and the messages stored after it.
    [db_error] makes [createMessage] reject; so does the schema's
    [content: { type: String, required: true }] when the trimmed content is
    the empty string, which a required string path refuses. The message
    payloads are recorded by the receiver's id. *)
Definition send_message (now : Z) (st : io_state) (sid senderId receiverId content : string)
  (db_error : option string) (msgs : list message) : list delivery * list message :=
  if String.eqb senderId "" || String.eqb receiverId "" || String.eqb content ""
  then ([mkDelivery sid "error" "Missing required fields"], msgs)
  else
    match db_error with
    | Some _ => ([mkDelivery sid "error" "Failed to send message"], msgs)
    | None =>
        if String.eqb (js_trim content) "" then
          ([mkDelivery sid "error" "Failed to send message"], msgs)
        else
        (emitToUser st receiverId "new-message" receiverId
         ++ [mkDelivery sid "message-sent" receiverId]
         ++ emitToUser st senderId "conversation-updated" ""
         ++ emitToUser st receiverId "conversation-updated" "",
         msgs ++ [mkMessage senderId receiverId (js_trim content) false now])
    end.

(** [dao.markMessagesAsRead(userId1, userId2)]
    ([src/conversations/dao.js]): [updateMany] sets [read] on every unread
    message from [userId2] to [userId1]. *)
Definition markMessagesAsRead (userId1 userId2 : string) (msgs : list message)
  : list message :=
  map (fun m => if String.eqb (m_sender m) userId2 && String.eqb (m_receiver m) userId1
                   && negb (m_read m)
                then mkMessage (m_sender m) (m_receiver m) (m_content m) true (m_createdAt m)
                else m) msgs.

(** [senderIds.add(id)] for each id in turn: a [Set] keeps the first
    occurrence of each. *)
Definition set_add_all (l : list string) : list string :=
  fold_left (fun acc x => if str_mem x acc then acc else acc ++ [x]) l [].

(** The messages [model.find({ receiverId: userId, senderId: { $ne: userId },
    read: false })] returns. *)
Definition unread_for (userId : string) (msgs : list message) : list message :=
  filter (fun m => String.eqb (m_receiver m) userId
                   && negb (String.eqb (m_sender m) userId) && negb (m_read m)) msgs.

(** [dao.getUnreadMessageCount(userId)]: [senderIds.size]. *)
Definition getUnreadMessageCount (userId : string) (msgs : list message) : nat :=
  length (set_add_all (map m_sender (unread_for userId msgs))).

(** [socket.on("mark-read", { userId, partnerId })]: nothing when an id is
    falsy; otherwise mark the messages read, then
    [io.to(`user-${partnerId}`).emit("messages-read", { readBy: userId })],
    recorded by [userId]. A rejected update is caught and logged only. *)
Definition mark_read (st : io_state) (userId partnerId : string)
  (db_error : option string) (msgs : list message) : list delivery * list message :=
  if String.eqb userId "" || String.eqb partnerId "" then ([], msgs)
  else match db_error with
       | Some _ => ([], msgs)
       | None => (emitToUser st partnerId "messages-read" userId,
                  markMessagesAsRead userId partnerId msgs)
       end.

(** * Facts about the [Map] model *)

Section MapFacts.
Context {V : Type}.
Implicit Types (m : jsmap V) (v : V) (k : string).

Lemma map_get_set_eq k v m : map_get k (map_set k v m) = Some v.
  Proof.
    induction m as [|[k0 v0] r IH]; simpl.
    - now rewrite String.eqb_refl.
    - destruct (String.eqb k0 k) eqn:E; simpl.
      + now rewrite String.eqb_refl.
      + now rewrite E.
  Qed.

Lemma map_get_set_neq k k' v m :
    k' <> k -> map_get k (map_set k' v m) = map_get k m.
  Proof.
    intros Hne. induction m as [|[k0 v0] r IH]; simpl.
    - destruct (String.eqb_spec k' k); congruence.
    - destruct (String.eqb_spec k0 k') as [->|E]; simpl.
      + destruct (String.eqb_spec k' k); congruence.
      + destruct (String.eqb k0 k); auto.
  Qed.

Lemma map_get_filter_same (f : string * V -> bool) k m :
    (forall v, f (k, v) = true) -> map_get k (filter f m) = map_get k m.
  Proof.
    intros Hf. induction m as [|[k0 v0] r IH]; simpl; auto.
    destruct (String.eqb_spec k0 k) as [->|E].
    - rewrite Hf. simpl. now rewrite String.eqb_refl.
    - destruct (f (k0, v0)); simpl; auto.
      destruct (String.eqb_spec k0 k); [contradiction|auto].
  Qed.

Lemma map_get_filter_keep (f : string * V -> bool) k v m :
    map_get k m = Some v -> f (k, v) = true -> map_get k (filter f m) = Some v.
  Proof.
    intros Hg Hf. induction m as [|[k0 v0] r IH]; simpl in *; [discriminate|].
    destruct (String.eqb_spec k0 k) as [->|E].
    - injection Hg as <-. rewrite Hf. simpl. now rewrite String.eqb_refl.
    - destruct (f (k0, v0)); simpl; auto.
      destruct (String.eqb_spec k0 k); [contradiction|auto].
  Qed.

Lemma map_get_filter_none (f : string * V -> bool) k m :
    map_get k m = None -> map_get k (filter f m) = None.
  Proof.
    intros Hg. induction m as [|[k0 v0] r IH]; simpl in *; auto.
    destruct (String.eqb k0 k) eqn:E; [discriminate|].
    destruct (f (k0, v0)); simpl; auto. rewrite E; auto.
  Qed.

Lemma map_get_filter_drop (f : string * V -> bool) k m :
    (forall v, f (k, v) = false) -> map_get k (filter f m) = None.
  Proof.
    intros Hf. induction m as [|[k0 v0] r IH]; simpl; auto.
    destruct (String.eqb_spec k0 k) as [->|E].
    - now rewrite Hf.
    - destruct (f (k0, v0)); simpl; auto.
      destruct (String.eqb_spec k0 k); [contradiction|auto].
  Qed.

Lemma map_get_delete_eq k m : map_get k (map_delete k m) = None.
  Proof.
    apply map_get_filter_drop. intros v. simpl. now rewrite String.eqb_refl.
  Qed.

Lemma map_get_delete_neq k k' m :
    k' <> k -> map_get k (map_delete k' m) = map_get k m.
  Proof.
    intros Hne. apply map_get_filter_same. intros v; cbn [fst].
    destruct (String.eqb_spec k k'); [congruence|reflexivity].
  Qed.

Lemma map_get_In k v m : map_get k m = Some v -> In (k, v) m.
  Proof.
    induction m as [|[k0 v0] r IH]; simpl; [discriminate|].
    destruct (String.eqb_spec k0 k) as [->|E]; [injection 1 as <-; auto|auto].
  Qed.

Lemma map_has_In k v m : In (k, v) m -> map_has k m = true.
  Proof.
    intros H. apply existsb_exists. exists (k, v). simpl.
    split; [exact H | apply String.eqb_refl].
  Qed.

Lemma In_map_get k v m :
    keys_unique m = true -> In (k, v) m -> map_get k m = Some v.
  Proof.
    induction m as [|[k0 v0] r IH]; simpl; [contradiction|].
    intros Hu [Heq|Hin].
    - injection Heq as -> ->. now rewrite String.eqb_refl.
    - apply andb_prop in Hu as [Hn Hu].
      destruct (String.eqb_spec k0 k) as [->|E]; [|auto].
      rewrite (map_has_In _ _ _ Hin) in Hn. discriminate.
  Qed.

  (** With distinct keys, filtering either removes the entry of [k] or
      keeps it as it was. *)
Lemma map_get_filter_sub (f : string * V -> bool) k m :
    keys_unique m = true ->
    map_get k (filter f m) = None \/ map_get k (filter f m) = map_get k m.
  Proof.
    intros Hu. destruct (map_get k (filter f m)) as [v|] eqn:G; [|auto].
    right. apply map_get_In in G. apply filter_In in G as [G _].
    symmetry. now apply In_map_get.
  Qed.

Lemma map_has_filter (f : string * V -> bool) k m :
    map_has k (filter f m) = true -> map_has k m = true.
  Proof.
    unfold map_has. intros H. apply existsb_exists in H as [x [Hx Hk]].
    apply filter_In in Hx as [Hx _]. apply existsb_exists. eauto.
  Qed.

Lemma keys_unique_filter (f : string * V -> bool) m :
    keys_unique m = true -> keys_unique (filter f m) = true.
  Proof.
    induction m as [|[k0 v0] r IH]; simpl; auto.
    intros Hu. apply andb_prop in Hu as [Hn Hu].
    destruct (f (k0, v0)); simpl; auto.
    rewrite IH by auto. destruct (map_has k0 (filter f r)) eqn:E; auto.
    apply map_has_filter in E. rewrite E in Hn. discriminate.
  Qed.

Lemma map_has_set k k' v m :
    map_has k (map_set k' v m) = String.eqb k' k || map_has k m.
  Proof.
    unfold map_has. induction m as [|[k0 v0] r IH]; simpl.
    - now rewrite orb_false_r.
    - destruct (String.eqb_spec k0 k') as [->|E]; simpl.
      + destruct (String.eqb k' k); reflexivity.
      + rewrite IH. destruct (String.eqb k0 k), (String.eqb k' k); reflexivity.
  Qed.

Lemma keys_unique_set k v m :
    keys_unique m = true -> keys_unique (map_set k v m) = true.
  Proof.
    induction m as [|[k0 v0] r IH]; simpl; auto.
    intros Hu. apply andb_prop in Hu as [Hn Hu].
    destruct (String.eqb_spec k0 k) as [->|E]; simpl.
    - now rewrite Hn, Hu.
    - rewrite IH by auto. rewrite map_has_set.
      destruct (String.eqb_spec k k0); [congruence|]. simpl. now rewrite Hn.
  Qed.

Lemma length_map_set k v m :
    (length (map_set k v m) <= S (length m))%nat.
  Proof.
    induction m as [|[k0 v0] r IH]; simpl; [lia|].
    destruct (String.eqb k0 k); simpl; lia.
  Qed.
End MapFacts.

(** * Facts about the cache operations *)

Lemma filter_filter_and {A} (f g : A -> bool) (l : list A) :
  filter f (filter g l) = filter (fun x => g x && f x) l.
Proof.
  induction l as [|x r IH]; simpl; auto.
  destruct (g x); simpl; [destruct (f x); simpl; congruence | exact IH].
Qed.

Lemma filter_all_true {A} (f : A -> bool) (l : list A) :
  (forall x, f x = true) -> filter f l = l.
Proof. intros H. induction l as [|x r IH]; simpl; auto. now rewrite H, IH. Qed.

(** The eviction loop deletes exactly the entries whose keys it visits. *)
Lemma fold_delete_filter (L : list (string * entry)) (c : cache_store) :
  fold_left (fun acc p => map_delete (fst p) acc) L c
  = filter (fun p => negb (map_has (fst p) L)) c.
Proof.
  revert c. induction L as [|[k0 e0] L IH]; intros c; simpl.
  - symmetry. now apply filter_all_true.
  - rewrite IH. unfold map_delete. rewrite filter_filter_and.
    apply filter_ext. intros [k e]. simpl.
    rewrite (String.eqb_sym k0 k). destruct (String.eqb k k0); reflexivity.
Qed.

Lemma evict_filter (c : cache_store) :
  evict c = if Nat.leb MAX_CACHE_SIZE (length c)
            then filter (fun p => negb (map_has (fst p) (evicted c))) c
            else c.
Proof. unfold evict. destruct (Nat.leb _ _); auto. apply fold_delete_filter. Qed.

Lemma keys_unique_evict (c : cache_store) :
  keys_unique c = true -> keys_unique (evict c) = true.
Proof.
  intros Hu. rewrite evict_filter. destruct (Nat.leb _ _); auto.
  now apply keys_unique_filter.
Qed.

Lemma keys_unique_cache_set now ttl k d c :
  keys_unique c = true -> keys_unique (set now ttl k d c) = true.
Proof. intros Hu. apply keys_unique_set, keys_unique_evict, Hu. Qed.

(** The [delPattern] loop, in closed form. *)
Lemma delPattern_loop_spec (pre : string) (ks : list string) (n : nat)
  (c : cache_store) :
  delPattern_loop pre ks n c
  = ((n + length (filter (String.prefix pre) ks))%nat,
     filter (fun p => negb (String.prefix pre (fst p) && str_mem (fst p) ks)) c).
Proof.
  revert n c. induction ks as [|k ks IH]; intros n c; simpl.
  - rewrite Nat.add_0_r. f_equal. symmetry. apply filter_all_true.
    intros p. now rewrite andb_false_r.
  - destruct (String.prefix pre k) eqn:Hp; rewrite IH; simpl.
    + f_equal; [lia|]. unfold map_delete. rewrite filter_filter_and.
      apply filter_ext. intros [k' e]. simpl.
      destruct (String.eqb_spec k' k) as [->|E].
      * now rewrite Hp.
      * destruct (String.eqb_spec k' k); [contradiction|].
        destruct (String.prefix pre k'); reflexivity.
    + f_equal. apply filter_ext. intros [k' e]. simpl.
      destruct (String.eqb_spec k' k) as [->|E].
      * now rewrite Hp.
      * destruct (String.eqb_spec k' k); [contradiction|]. reflexivity.
Qed.

Lemma str_mem_keys (k : string) (e : entry) (c : cache_store) :
  In (k, e) c -> str_mem k (map_keys c) = true.
Proof.
  intros H. apply existsb_exists. exists k. split; [|apply String.eqb_refl].
  apply (in_map fst _ _ H).
Qed.

Lemma delPattern_spec (pattern : string) (c : cache_store) :
  let pre := replace_first_star pattern in
  delPattern pattern c
  = (length (filter (fun p => String.prefix pre (fst p)) c),
     filter (fun p => negb (String.prefix pre (fst p))) c).
Proof.
  simpl. unfold delPattern. rewrite delPattern_loop_spec. simpl. f_equal.
  - unfold map_keys. induction c as [|[k e] r IH]; simpl; auto.
    destruct (String.prefix _ k); simpl; auto.
  - apply filter_ext_in. intros [k e] Hin. simpl.
    now rewrite (str_mem_keys _ _ _ Hin), andb_true_r.
Qed.

Lemma keys_unique_step t o c :
  keys_unique c = true -> keys_unique (cache_step t o c) = true.
Proof.
  intros Hu. destruct o; simpl.
  - unfold get. destruct (map_get key c); auto.
    destruct (Z.ltb _ _); simpl; auto. now apply keys_unique_filter.
  - now apply keys_unique_cache_set.
  - now apply keys_unique_filter.
  - rewrite delPattern_spec. now apply keys_unique_filter.
  - reflexivity.
  - now apply keys_unique_filter.
Qed.

Lemma keys_unique_run tr c :
  keys_unique c = true -> keys_unique (cache_run tr c) = true.
Proof.
  revert c. induction tr as [|[t o] r IH]; intros c Hu; simpl; auto.
  apply IH, keys_unique_step, Hu.
Qed.

Lemma map_get_evict_keep k e c :
  map_get k c = Some e ->
  negb (Nat.leb MAX_CACHE_SIZE (length c) && map_has k (evicted c)) = true ->
  map_get k (evict c) = Some e.
Proof.
  intros Hg Hk. rewrite evict_filter.
  destruct (Nat.leb _ _); simpl in *; auto.
  rewrite map_get_filter_same; auto.
Qed.

(** One operation that keeps [k], at a time at which the entry of [k] has
    not expired, leaves that entry in place. *)
Lemma step_keeps_entry k e t o c :
  op_keeps k o c = true -> t <= expiresAt e -> map_get k c = Some e ->
  map_get k (cache_step t o c) = Some e.
Proof.
  intros Hk Ht Hg. destruct o as [k'|k' d ttl'|k'|p| |]; simpl in *.
  - unfold get. destruct (map_get k' c) as [e'|] eqn:G; simpl; auto.
    destruct (Z.ltb_spec (expiresAt e') t); simpl; auto.
    destruct (String.eqb_spec k' k) as [->|E].
    + rewrite Hg in G. injection G as <-. lia.
    + now rewrite map_get_delete_neq.
  - apply andb_prop in Hk as [H1 H2].
    destruct (String.eqb_spec k' k) as [->|E]; [discriminate|].
    unfold set. rewrite map_get_set_neq by auto.
    now apply map_get_evict_keep.
  - destruct (String.eqb_spec k' k) as [->|E]; [discriminate|].
    now rewrite map_get_delete_neq.
  - rewrite delPattern_spec. simpl.
    rewrite map_get_filter_same; auto.
  - discriminate.
  - apply map_get_filter_keep; auto. simpl.
    destruct (Z.ltb_spec (expiresAt e) t); [lia|reflexivity].
Qed.

Lemma run_keeps_entry k e tr c :
  trace_keeps k tr c = true ->
  forallb (fun p => Z.leb (fst p) (expiresAt e)) tr = true ->
  map_get k c = Some e ->
  map_get k (cache_run tr c) = Some e.
Proof.
  revert c. induction tr as [|[t o] r IH]; intros c Hk Ht Hg; simpl in *; auto.
  apply andb_prop in Hk as [Hk1 Hk2]. apply andb_prop in Ht as [Ht1 Ht2].
  apply IH; auto. apply step_keeps_entry; auto. now apply Z.leb_le.
Qed.

(** Any operation other than a [set] of [k] either removes the entry of
    [k] or leaves it as it was. *)
Lemma step_no_set k t o c :
  keys_unique c = true ->
  match o with OpSet k' _ _ => negb (String.eqb k' k) | _ => true end = true ->
  map_get k (cache_step t o c) = None \/ map_get k (cache_step t o c) = map_get k c.
Proof.
  intros Hu Ho. destruct o as [k'|k' d ttl'|k'|p| |]; simpl in *.
  - unfold get. destruct (map_get k' c); simpl; auto.
    destruct (Z.ltb _ _); simpl; auto. now apply map_get_filter_sub.
  - destruct (String.eqb_spec k' k) as [->|E]; [discriminate|].
    unfold set. rewrite map_get_set_neq by auto. rewrite evict_filter.
    destruct (Nat.leb _ _); auto. now apply map_get_filter_sub.
  - now apply map_get_filter_sub.
  - rewrite delPattern_spec. now apply map_get_filter_sub.
  - auto.
  - now apply map_get_filter_sub.
Qed.

Lemma run_no_set k e tr c :
  keys_unique c = true -> no_set_of k tr = true ->
  map_get k c = None \/ map_get k c = Some e ->
  map_get k (cache_run tr c) = None \/ map_get k (cache_run tr c) = Some e.
Proof.
  revert c. induction tr as [|[t o] r IH]; intros c Hu Hn Hg; simpl in *; auto.
  apply andb_prop in Hn as [Hn1 Hn2]. apply IH; auto.
  - now apply keys_unique_step.
  - destruct (step_no_set k t o c Hu Hn1) as [H|H]; rewrite H; auto.
Qed.

Lemma replace_first_star_ns (n : string) :
  has_star n = false -> replace_first_star (n ++ ":*") = (n ++ ":")%string.
Proof.
  induction n as [|a r IH]; simpl; auto.
  intros H. apply orb_false_elim in H as [Ha Hr]. rewrite Ha, IH by auto.
  reflexivity.
Qed.

Lemma serve_null_step (env : string) (o : cache_options) (h : request -> hresult) (req : request)
  (st now tresp : Z) (c : cache_store) :
  method req = "GET"%string -> skipCache o req = false -> h req = HJson st JNull ->
  holds_no_payload (keyGenerator o req) c = true ->
  handler_invoked (cacheMiddleware env o h now tresp req c) = true
  /\ holds_no_payload (keyGenerator o req) (cache_after (cacheMiddleware env o h now tresp req c)) = true.
Proof.
  intros Hm Hs Hh Hc. unfold cacheMiddleware. rewrite Hm, Hs. simpl.
  unfold holds_no_payload in Hc. unfold get.
  destruct (map_get (keyGenerator o req) c) as [e|] eqn:G.
  - destruct (data e) eqn:D; [|discriminate].
    destruct (Z.ltb _ _); simpl; rewrite ?D, Hh; simpl;
      (split; [reflexivity|]); unfold holds_no_payload, set;
      now rewrite map_get_set_eq.
  - rewrite Hh. simpl. split; [reflexivity|].
    unfold holds_no_payload, set. now rewrite map_get_set_eq.
Qed.

Lemma serve_all_null (env : string) (o : cache_options) (h : request -> hresult) (req : request)
  (st : Z) (times : list (Z * Z)) (c : cache_store) :
  method req = "GET"%string -> skipCache o req = false -> h req = HJson st JNull ->
  holds_no_payload (keyGenerator o req) c = true ->
  forallb handler_invoked (serve_all env o h req times c) = true.
Proof.
  intros Hm Hs Hh. revert c. induction times as [|[now tresp] r IH]; intros c Hc;
    simpl; auto.
  destruct (serve_null_step env o h req st now tresp c Hm Hs Hh Hc) as [H1 H2].
  rewrite H1. simpl. now apply IH.
Qed.

(** * Eviction: sorting by creation time *)

Definition created_le (p q : string * entry) : Prop :=
  createdAt (snd p) <= createdAt (snd q).

Lemma insert_by_created_perm p l :
  Permutation (insert_by_created p l) (p :: l).
Proof.
  induction l as [|q r IH]; simpl; auto.
  destruct (Z.leb _ _); auto.
  eapply perm_trans; [apply perm_skip, IH | apply perm_swap].
Qed.

Lemma sort_by_created_perm l : Permutation (sort_by_created l) l.
Proof.
  induction l as [|p r IH]; simpl; auto.
  eapply perm_trans; [apply insert_by_created_perm | now apply perm_skip].
Qed.

Lemma insert_by_created_sorted p l :
  Sorted created_le l -> Sorted created_le (insert_by_created p l).
Proof.
  induction l as [|q r IH]; simpl; intros Hs.
  - repeat constructor.
  - destruct (Z.leb_spec (createdAt (snd p)) (createdAt (snd q))) as [Hle|Hgt].
    + constructor; [exact Hs | constructor; exact Hle].
    + inversion Hs as [|? ? Hr Hhd]; subst. constructor; [now apply IH|].
      destruct r as [|q' r']; simpl.
      * constructor. unfold created_le. lia.
      * inversion Hhd; subst.
        destruct (Z.leb _ _); constructor; unfold created_le in *; lia.
Qed.

Lemma sort_by_created_sorted l : Sorted created_le (sort_by_created l).
Proof.
  induction l as [|p r IH]; simpl; [constructor|].
  now apply insert_by_created_sorted.
Qed.

Lemma created_le_trans : Transitive created_le.
Proof. intros x y z. unfold created_le. lia. Qed.

Lemma strongly_sorted_app {A} (R : A -> A -> Prop) l1 l2 x y :
  StronglySorted R (l1 ++ l2) -> In x l1 -> In y l2 -> R x y.
Proof.
  induction l1 as [|a r IH]; simpl; [contradiction|].
  intros Hs [<-|Hx] Hy.
  - apply StronglySorted_inv in Hs as [_ Hf].
    rewrite Forall_forall in Hf. apply Hf, in_or_app; auto.
  - apply StronglySorted_inv in Hs as [Hs _]. now apply IH.
Qed.

Lemma perm_filter_length {A} (f : A -> bool) l l' :
  Permutation l l' -> length (filter f l) = length (filter f l').
Proof.
  induction 1; simpl; auto.
  - destruct (f x); simpl; auto.
  - destruct (f x), (f y); simpl; auto.
  - congruence.
Qed.

Lemma keys_unique_NoDup {V} (m : jsmap V) :
  keys_unique m = true -> NoDup (map fst m).
Proof.
  induction m as [|[k v] r IH]; simpl; intros Hu; [constructor|].
  apply andb_prop in Hu as [Hn Hu]. constructor; auto.
  intros Hin. apply in_map_iff in Hin as [[k' v'] [Hk Hin]]. simpl in Hk; subst.
  rewrite (map_has_In _ _ _ Hin) in Hn. discriminate.
Qed.

Lemma NoDup_app_disjoint {A} (l1 l2 : list A) x :
  NoDup (l1 ++ l2) -> In x l1 -> ~ In x l2.
Proof.
  induction l1 as [|a r IH]; simpl; [contradiction|].
  intros Hn [<-|Hx] Hy; inversion Hn; subst.
  - apply H1, in_or_app; auto.
  - eapply IH; eauto.
Qed.

Lemma filter_all_true_in {A} (f : A -> bool) (l : list A) :
  (forall x, In x l -> f x = true) -> filter f l = l.
Proof.
  induction l as [|x r IH]; simpl; intros H; auto.
  rewrite H by auto. f_equal. apply IH. auto.
Qed.

Lemma filter_all_false_in {A} (f : A -> bool) (l : list A) :
  (forall x, In x l -> f x = false) -> filter f l = [].
Proof.
  induction l as [|x r IH]; simpl; intros H; auto.
  rewrite H by auto. apply IH. auto.
Qed.

Lemma toRemove_value : toRemove = 100%nat.
Proof. reflexivity. Qed.

(** On a full cache the evicted keys are [toRemove] distinct keys of the
    cache, and no kept entry is older than an evicted one. *)
Lemma evicted_facts (c : cache_store) :
  keys_unique c = true -> (MAX_CACHE_SIZE <= length c)%nat ->
  length (evicted c) = toRemove
  /\ (forall p, In p (evicted c) -> In p c)
  /\ (forall p q, In p (evicted c) -> In q c -> map_has (fst q) (evicted c) = false ->
        createdAt (snd p) <= createdAt (snd q))
  /\ length (filter (fun p => negb (map_has (fst p) (evicted c))) c)
     = (length c - toRemove)%nat.
Proof.
  intros Hu Hfull.
  pose proof (sort_by_created_perm c) as Hp.
  pose proof (Sorted_StronglySorted created_le_trans (sort_by_created_sorted c)) as Hss.
  assert (Hsplit : sort_by_created c = evicted c ++ skipn toRemove (sort_by_created c))
    by (symmetry; apply firstn_skipn).
  assert (Hlen : length (sort_by_created c) = length c) by (now apply Permutation_length).
  assert (Hnd : NoDup (map fst (evicted c ++ skipn toRemove (sort_by_created c)))).
  { rewrite <- Hsplit. eapply Permutation_NoDup; [apply Permutation_map; symmetry; exact Hp|].
    now apply keys_unique_NoDup. }
  rewrite map_app in Hnd.
  assert (Hrest : forall q, In q (skipn toRemove (sort_by_created c)) ->
                  map_has (fst q) (evicted c) = false).
  { intros q Hq. destruct (map_has (fst q) (evicted c)) eqn:E; auto.
    apply existsb_exists in E as [p [Hp' Hk]]. apply String.eqb_eq in Hk.
    exfalso. apply (NoDup_app_disjoint _ _ (fst q) Hnd).
    - rewrite <- Hk. now apply in_map.
    - now apply in_map. }
  split; [|split; [|split]].
  - unfold evicted. rewrite length_firstn, Hlen. unfold MAX_CACHE_SIZE in Hfull.
    rewrite toRemove_value. lia.
  - intros p Hin. eapply Permutation_in; [exact Hp|].
    unfold evicted in Hin. rewrite Hsplit. apply in_or_app; auto.
  - intros p q Hpin Hq Hk.
    assert (Hq' : In q (evicted c ++ skipn toRemove (sort_by_created c))).
    { rewrite <- Hsplit. eapply Permutation_in; [symmetry; exact Hp | exact Hq]. }
    apply in_app_or in Hq' as [Hq'|Hq'].
    + destruct q as [kq eq]. simpl in Hk.
      rewrite (map_has_In _ _ _ Hq') in Hk. discriminate.
    + rewrite Hsplit in Hss. exact (strongly_sorted_app _ _ _ _ _ Hss Hpin Hq').
  - rewrite (perm_filter_length _ c (sort_by_created c)) by (symmetry; exact Hp).
    rewrite Hsplit, filter_app.
    rewrite filter_all_false_in.
    2:{ intros [k e] Hin. simpl. now rewrite (map_has_In _ _ _ Hin). }
    rewrite filter_all_true_in.
    2:{ intros q Hin. now rewrite Hrest. }
    rewrite app_nil_l, length_skipn, Hlen. reflexivity.
Qed.

Lemma length_filter_le {A} (f : A -> bool) (l : list A) :
  (length (filter f l) <= length l)%nat.
Proof. induction l as [|x r IH]; simpl; [lia|]. destruct (f x); simpl; lia. Qed.

Lemma length_set_bound now ttl k d c :
  keys_unique c = true -> (length c <= MAX_CACHE_SIZE)%nat ->
  (length (set now ttl k d c) <= MAX_CACHE_SIZE)%nat.
Proof.
  intros Hu Hl. unfold set.
  eapply Nat.le_trans; [apply length_map_set|].
  rewrite evict_filter. destruct (Nat.leb_spec MAX_CACHE_SIZE (length c)) as [Hf|Hf].
  - destruct (evicted_facts c Hu Hf) as [_ [_ [_ ->]]].
    rewrite toRemove_value. unfold MAX_CACHE_SIZE in *. lia.
  - unfold MAX_CACHE_SIZE in *. lia.
Qed.

(** Every cache state reached from the empty cache has distinct keys and
    at most [MAX_CACHE_SIZE] entries. *)
Lemma reachable_cache_wf (tr : list (Z * cache_op)) :
  keys_unique (cache_run tr []) = true
  /\ (length (cache_run tr []) <= MAX_CACHE_SIZE)%nat.
Proof.
  assert (Hgen : forall c, keys_unique c = true -> (length c <= MAX_CACHE_SIZE)%nat ->
            keys_unique (cache_run tr c) = true
            /\ (length (cache_run tr c) <= MAX_CACHE_SIZE)%nat).
  { induction tr as [|[t o] r IH]; intros c Hu Hl; simpl; auto.
    apply IH; [now apply keys_unique_step|].
    destruct o; simpl.
    - unfold get. destruct (map_get key c); auto.
      destruct (Z.ltb _ _); simpl; auto.
      eapply Nat.le_trans; [apply length_filter_le | exact Hl].
    - now apply length_set_bound.
    - eapply Nat.le_trans; [apply length_filter_le | exact Hl].
    - rewrite delPattern_spec. simpl.
      eapply Nat.le_trans; [apply length_filter_le | exact Hl].
    - unfold MAX_CACHE_SIZE. simpl. lia.
    - eapply Nat.le_trans; [apply length_filter_le | exact Hl]. }
  apply Hgen; [reflexivity | unfold MAX_CACHE_SIZE; simpl; lia].
Qed.

(** * The handler monad *)

(** Without a cache fault, the monadic [delPattern] loop is the loop of the
    cache module. *)
Lemma delPattern_loopM_pure (pre : string) (ks : list string) (n : nat) (w : world) :
  cache_fault w = None ->
  delPattern_loopM pre ks n w
  = (Ret (fst (delPattern_loop pre ks n (w_cache w))),
     mkWorld (w_db w) (snd (delPattern_loop pre ks n (w_cache w))) (w_log w)
             (db_error w) (cache_fault w)).
Proof.
  revert n w. induction ks as [|k ks IH]; intros n w Hf; simpl.
  - destruct w; reflexivity.
  - destruct (String.prefix pre k).
    + unfold bind, cache_delete. cbv beta. rewrite Hf.
      rewrite IH by reflexivity. reflexivity.
    + apply IH, Hf.
Qed.

Lemma delPatternM_pure (pattern : string) (w : world) :
  cache_fault w = None ->
  delPatternM pattern w
  = (Ret (fst (delPattern pattern (w_cache w))),
     mkWorld (w_db w) (snd (delPattern pattern (w_cache w))) (w_log w)
             (db_error w) (cache_fault w)).
Proof. intros Hf. unfold delPatternM, delPattern. now apply delPattern_loopM_pure. Qed.

(** With the post store up, the notification block only adds its two
    events, when [io] is given and the notification was found. *)
Lemma notify_like_spec (io : bool) (nd : notif_dao) (cr : string) (w : world) :
  db_error w = None ->
  notify_like io nd cr w
  = (Ret tt, mkWorld (w_db w) (w_cache w)
               (w_log w ++ (if io && notification_found nd
                            then [EffEmit ("user-" ++ cr) "new-notification";
                                  EffEmit ("user-" ++ cr) "notification-count-updated"]
                            else []))
               (db_error w) (cache_fault w)).
Proof.
  intros He. destruct w as [db c lg dbe cf]; cbn in He; subst dbe.
  unfold notify_like, notification_found, try_catch, bind, createNotification,
    findNotificationById, emit, log_effect, ret; cbn.
  destruct (create_error nd), (find_error nd), io, (find_found nd); cbn;
    rewrite ?app_nil_r, <- ?app_assoc; reflexivity.
Qed.

(** Runs [likePost] up to its end on a request whose checks and store
    calls succeed. *)
Ltac run_like Hg Hid HPe :=
  unfold likePost, try_catch, bind, ret, dao_findPostById, dao_likePost;
  repeat progress (simpl; rewrite ?Hg, ?Hid, ?map_get_set_eq);
  destruct (_ && _); simpl; rewrite ?notify_like_spec by reflexivity; simpl;
  unfold invalidateCacheM, bind, log_effect, cache_delete; simpl; rewrite HPe; simpl.

(** A successful like: the store write, then the invalidation of
    "post:P" and of the "posts" namespace, then the broadcast when [io] is
    given; the notification events, if any, come between the write and
    the invalidations. *)
Lemma likePost_success (io : bool) (nd : notif_dao) (P u : string) (l : list string)
  (p : post) (db : post_db) (c : cache_store) (lg : list effect) :
  P <> ""%string -> map_get P db = Some p -> post_id p = P ->
  exists mid,
    likePost io nd (mkLikeRequest P (Some l) (Some u)) (mkWorld db c lg None None)
    = (Ret (HJson 200 (JData (post_json (mkPost P (creator p) (normalize_likes l))))),
       mkWorld (map_set P (mkPost P (creator p) (normalize_likes l)) db)
               (snd (delPattern (getCacheKey "posts" "*") (map_delete (getCacheKey "post" P) c)))
               (lg ++ [EffDbWrite P] ++ mid ++
                  [EffInvalidate "post" (Some P); EffInvalidate "posts" None]
                  ++ (if io then [EffEmit "*" "post-liked"] else []))
               None None).
Proof.
  intros HP Hg Hid.
  assert (HPe : String.eqb P "" = false) by (now apply String.eqb_neq).
  run_like Hg Hid HPe; rewrite delPatternM_pure by reflexivity; simpl.
  - exists (if io && notification_found nd
            then [EffEmit ("user-" ++ creator p) "new-notification";
                  EffEmit ("user-" ++ creator p) "notification-count-updated"]
            else []).
    destruct io; unfold emit, log_effect; simpl; now rewrite <- !app_assoc.
  - exists []. destruct io; unfold emit, log_effect; simpl; now rewrite <- !app_assoc.
Qed.

(** * Realtime connections *)

Lemma registered_for_snoc (U s : string) (tr : list sock_event) (e : sock_event) :
  registered_for U s (tr ++ [e])
  = match e with
    | Authenticate s' u' => registered_for U s tr || (String.eqb s' s && String.eqb u' U)
    | Disconnect s' => if String.eqb s' s then false else registered_for U s tr
    end.
Proof.
  induction tr as [|e0 tr IH]; simpl.
  - destruct e as [s' u'|s']; simpl.
    + now rewrite andb_true_r, orb_false_r.
    + destruct (String.eqb s' s); reflexivity.
  - destruct e0 as [s0 u0|s0]; rewrite IH; [|reflexivity].
    rewrite existsb_app. simpl.
    destruct e as [s' u'|s']; simpl;
      destruct (String.eqb s0 s), (String.eqb u0 U), (existsb _ tr),
        (registered_for U s tr); simpl;
      try destruct (String.eqb s' s); try destruct (String.eqb u' U); reflexivity.
Qed.

Lemma map_get_map_snd {V} (f : V -> V) (k : string) (m : jsmap V) :
  map_get k (map (fun p => (fst p, f (snd p))) m) = option_map f (map_get k m).
Proof.
  induction m as [|[k0 v0] r IH]; simpl; auto.
  destruct (String.eqb k0 k); auto.
Qed.

Lemma room_members_join (sid room R : string) (st : io_state) (us : jsmap string) :
  room_members R (mkIo (join sid room (rooms st)) us)
  = if String.eqb room R
    then (if str_mem sid (room_members room st) then room_members room st
          else room_members room st ++ [sid])
    else room_members R st.
Proof.
  unfold room_members, join. simpl.
  destruct (String.eqb_spec room R) as [->|E].
  - destruct (str_mem sid _) eqn:M.
    + destruct (map_get R (rooms st)); simpl in *; auto.
    + now rewrite map_get_set_eq.
  - destruct (str_mem sid _); auto. rewrite map_get_set_neq; auto.
Qed.

Lemma str_mem_In (s : string) (l : list string) : str_mem s l = true <-> In s l.
Proof.
  unfold str_mem. rewrite existsb_exists. split.
  - intros [x [Hx Hs]]. apply String.eqb_eq in Hs. now subst.
  - intros H. exists s. split; auto. apply String.eqb_refl.
Qed.

Lemma user_room_eqb (a b : string) :
  String.eqb ("user-" ++ a) ("user-" ++ b) = String.eqb a b.
Proof. reflexivity. Qed.

(** The room of a user holds, once each, exactly the sockets registered
    for that user. *)
Lemma room_invariant (tr : list sock_event) (U : string) :
  U <> ""%string ->
  NoDup (room_members ("user-" ++ U) (sock_run tr))
  /\ (forall s, In s (room_members ("user-" ++ U) (sock_run tr))
                <-> registered_for U s tr = true).
Proof.
  intros HU. unfold sock_run.
  induction tr as [|e tr [IHn IHi]] using rev_ind.
  - split; [constructor|]. intros s. cbn. split; [contradiction|discriminate].
  - rewrite fold_left_app. cbn [fold_left].
    destruct e as [s' u'|s']; cbn [sock_step].
    + unfold authenticate.
      destruct (String.eqb_spec u' "") as [->|Hu'].
      * split; auto. intros s. rewrite registered_for_snoc, IHi.
        destruct (String.eqb_spec "" U); [congruence|].
        now rewrite andb_false_r, orb_false_r.
      * rewrite room_members_join, user_room_eqb.
        destruct (String.eqb_spec u' U) as [->|E].
        -- destruct (str_mem s' _) eqn:M.
           ++ split; auto. intros s. rewrite registered_for_snoc, String.eqb_refl,
                andb_true_r, orb_true_iff, <- IHi, String.eqb_eq.
              apply str_mem_In in M. intuition congruence.
           ++ split.
              ** apply NoDup_app; auto; [constructor; [auto|constructor]|].
                 intros x Hx [<-|[]]. apply str_mem_In in Hx. congruence.
              ** intros s. rewrite registered_for_snoc, String.eqb_refl, andb_true_r,
                   in_app_iff, orb_true_iff, <- IHi, String.eqb_eq. cbn.
                 intuition congruence.
        -- split; auto. intros s. rewrite registered_for_snoc.
           destruct (String.eqb_spec u' U); [contradiction|].
           rewrite andb_false_r, orb_false_r. apply IHi.
    + revert IHn IHi. unfold disconnect, room_members. cbn [rooms].
      rewrite map_get_map_snd.
      destruct (map_get ("user-" ++ U) (rooms (fold_left sock_step tr io_init))) as [l|];
        cbn [option_map]; intros IHn IHi.
      * split; [now apply NoDup_filter|]. intros s.
        rewrite filter_In, registered_for_snoc.
        destruct (String.eqb_spec s s'), (String.eqb_spec s' s); cbn;
          rewrite ?IHi; intuition congruence.
      * split; [constructor|]. intros s. rewrite registered_for_snoc.
        destruct (String.eqb s' s); [split; [contradiction|discriminate]|apply IHi].
Qed.

Lemma first_user_of_In (sid u : string) (m : jsmap string) :
  first_user_of sid m = Some u -> In (u, sid) m.
Proof.
  induction m as [|[u0 s0] r IH]; simpl; [discriminate|].
  destruct (String.eqb_spec s0 sid) as [->|E]; [injection 1 as ->; auto|auto].
Qed.

Lemma userSockets_keys_unique (tr : list sock_event) :
  keys_unique (userSockets (sock_run tr)) = true.
Proof.
  induction tr as [|e tr IH] using rev_ind; [reflexivity|].
  unfold sock_run in *. rewrite fold_left_app. simpl.
  destruct e as [s' u'|s']; simpl.
  - unfold authenticate. destruct (String.eqb u' ""); auto.
    now apply keys_unique_set.
  - destruct (first_user_of _ _); auto. now apply keys_unique_filter.
Qed.

(** * The claims *)

(** Claim C1 (amended). After [set(k, v, ttl)] at time [t0], [get(k)]
    returns [v] (and changes nothing) at every time [now <= t0 + ttl], as
    long as every operation in between ran no later than [t0 + ttl] and
    kept [k]: no [del(k)], no [delPattern] matching [k], no [clear], no new
    [set(k, ...)], and no capacity eviction (a [set] on a full cache) that
    picked [k] among the oldest entries. Once [now > t0 + ttl], if [k] was
    not stored again, [get(k)] returns [null] and leaves no entry for [k]. *)
Theorem get_after_set_until_expiry (k : string) (v : jsval) (ttl t0 now : Z)
  (c : cache_store) (tr : list (Z * cache_op)) :
  keys_unique c = true ->
  (trace_keeps k tr (set t0 ttl k v c) = true ->
   forallb (fun p => Z.leb (fst p) (t0 + ttl)) tr = true ->
   now <= t0 + ttl ->
   get now k (cache_run tr (set t0 ttl k v c)) = (v, cache_run tr (set t0 ttl k v c)))
  /\
  (no_set_of k tr = true -> t0 + ttl < now ->
   fst (get now k (cache_run tr (set t0 ttl k v c))) = JNull
   /\ map_get k (snd (get now k (cache_run tr (set t0 ttl k v c)))) = None).
Proof.
  intros Hu. split.
  - intros Hk Ht Hn.
    assert (G : map_get k (cache_run tr (set t0 ttl k v c)) = Some (mkEntry v (t0 + ttl) t0)).
    { apply run_keeps_entry; auto. unfold set. apply map_get_set_eq. }
    unfold get. rewrite G. simpl.
    destruct (Z.ltb_spec (t0 + ttl) now); [lia|reflexivity].
  - intros Hn Hlt.
    destruct (run_no_set k (mkEntry v (t0 + ttl) t0) tr (set t0 ttl k v c)
                (keys_unique_cache_set _ _ _ _ _ Hu) Hn
                (or_intror (map_get_set_eq _ _ _))) as [G|G];
      unfold get; rewrite G; simpl.
    + now rewrite G.
    + destruct (Z.ltb_spec (t0 + ttl) now); [|lia]. simpl.
      split; [reflexivity|]. apply map_get_delete_eq.
Qed.

Lemma get_after_set_until_expiry_witness :
  keys_unique ([] : cache_store) = true
  /\ get 5 "post:1" (cache_run [(3, OpGet "post:2"); (4, OpSet "post:2" (JData "w") 10)]
                       (set 0 10 "post:1" (JData "v") []))
     = (JData "v", cache_run [(3, OpGet "post:2"); (4, OpSet "post:2" (JData "w") 10)]
                     (set 0 10 "post:1" (JData "v") [])).
Proof.
  split; [reflexivity|].
  apply (get_after_set_until_expiry "post:1" (JData "v") 10 0 5 []
           [(3, OpGet "post:2"); (4, OpSet "post:2" (JData "w") 10)]);
    [reflexivity | vm_compute; reflexivity | vm_compute; reflexivity | lia].
Defined.

(** Claim C1, counterexample: [set("post:1", v)] followed only by stores of
    1000 other keys (no delete, no namespace delete, no clear) removes
    "post:1" by capacity eviction, so [get] returns [null] 2 ms later,
    well within the 5-minute ttl. *)
Lemma get_after_set_evicted_cex :
  forallb (fun p => match snd p with
                    | OpSet k' _ _ => negb (String.eqb k' "post:1")
                    | _ => false
                    end) (fill_trace 1 1000) = true
  /\ fst (get 2 "post:1"
            (cache_run (fill_trace 1 1000) (set 0 DEFAULT_TTL "post:1" (JData "v") [])))
     = JNull.
Proof. split; vm_compute; reflexivity. Qed.

(** Claim C3 (amended). For a namespace [n] without the character [*],
    [deleteNamespace(n)] ([delPattern(`${n}:*`)], which [invalidateCache(n)]
    calls) removes exactly the entries whose key starts with [n + ":"],
    returns their number, and leaves every other entry as it was, in
    order. In particular, after [set("post:1", v1)] and
    [set("posts:list", v2)], [invalidateCache("post")] removes "post:1" and
    keeps "posts:list" with [v2]. *)
Theorem deleteNamespace_removes_exactly (n : string) (c : cache_store) :
  has_star n = false ->
  delPattern (getCacheKey n "*") c
    = (length (filter (fun p => String.prefix (n ++ ":") (fst p)) c),
       filter (fun p => negb (String.prefix (n ++ ":") (fst p))) c)
  /\ invalidateCache n None c = snd (delPattern (getCacheKey n "*") c)
  /\ (forall (t1 t2 ttl1 ttl2 : Z) (v1 v2 : jsval) (c0 : cache_store),
        map_get "post:1" (invalidateCache "post" None
          (set t2 ttl2 "posts:list" v2 (set t1 ttl1 "post:1" v1 c0))) = None
        /\ map_get "posts:list" (invalidateCache "post" None
          (set t2 ttl2 "posts:list" v2 (set t1 ttl1 "post:1" v1 c0)))
           = Some (mkEntry v2 (t2 + ttl2) t2)).
Proof.
  intros Hn. split; [|split].
  - rewrite delPattern_spec. unfold getCacheKey. simpl.
    now rewrite replace_first_star_ns.
  - reflexivity.
  - intros t1 t2 ttl1 ttl2 v1 v2 c0. unfold invalidateCache.
    rewrite delPattern_spec. simpl. split.
    + apply map_get_filter_drop. intros e. reflexivity.
    + rewrite map_get_filter_same by reflexivity.
      unfold set at 1. apply map_get_set_eq.
Qed.

Lemma deleteNamespace_removes_exactly_witness :
  has_star "post" = false
  /\ invalidateCache "post" None
       (set 0 10 "posts:list" (JData "b") (set 0 10 "post:1" (JData "a") []))
     = snd (delPattern (getCacheKey "post" "*")
       (set 0 10 "posts:list" (JData "b") (set 0 10 "post:1" (JData "a") []))).
Proof.
  split; [reflexivity|].
  apply (deleteNamespace_removes_exactly "post"
           (set 0 10 "posts:list" (JData "b") (set 0 10 "post:1" (JData "a") [])));
    reflexivity.
Defined.

(** Claim C3, counterexample: for the namespace "a*", [pattern.replace]
    strips the [*] of the namespace instead of the trailing one, so the key
    "a*:1", which starts with "a*:", survives [invalidateCache("a*")]. *)
Lemma deleteNamespace_star_cex :
  String.prefix (getCacheKey "a*" "") "a*:1" = true
  /\ map_get "a*:1" (invalidateCache "a*" None (set 0 100 "a*:1" (JData "v") []))
     = Some (mkEntry (JData "v") 100 0).
Proof. split; vm_compute; reflexivity. Qed.

(** Claim C10. A stored [null] reads as absence: after [set(k, null, ttl)],
    [get(k)] returns the same [null] as for a key that is not stored. And
    when the handler answers a request with [null], the middleware treats
    every later request for that key as a miss and runs the handler each
    time. *)
Theorem cached_null_reads_as_absent (k : string) (t0 ttl now : Z) (c : cache_store)
  (env : string) (o : cache_options) (h : request -> hresult) (req : request)
  (st : Z) (times : list (Z * Z)) :
  fst (get now k (set t0 ttl k JNull c)) = JNull
  /\ fst (get now k (map_delete k c)) = JNull
  /\ (method req = "GET"%string -> skipCache o req = false -> h req = HJson st JNull ->
      forallb handler_invoked
        (serve_all env o h req times (set t0 ttl (keyGenerator o req) JNull c)) = true).
Proof.
  split; [|split].
  - unfold get, set. rewrite map_get_set_eq. simpl.
    destruct (Z.ltb _ _); reflexivity.
  - unfold get. now rewrite map_get_delete_eq.
  - intros Hm Hs Hh. apply (serve_all_null env o h req st); auto.
    unfold holds_no_payload, set. now rewrite map_get_set_eq.
Qed.

Lemma cached_null_reads_as_absent_witness :
  forallb handler_invoked
    (serve_all "production" post_cache_options (fun _ => HJson 200 JNull) (mkRequest "GET" "p1")
       [(1, 2); (3, 4); (5, 6)]
       (set 0 100 (getCacheKey "post" "p1") JNull [])) = true.
Proof.
  apply (cached_null_reads_as_absent (getCacheKey "post" "p1") 0 100 0 []
           "production" post_cache_options (fun _ => HJson 200 JNull) (mkRequest "GET" "p1") 200);
    reflexivity.
Defined.

(** Claim C2. On a cache state the cache can be in (distinct keys, at most
    [MAX_CACHE_SIZE] = 1000 entries, see [reachable_cache_wf]): when the
    cache is full, [set] first evicts exactly [toRemove] = floor(1000 * 0.1)
    = 100 entries of the cache, none of them newer (by [createdAt]) than any
    entry kept, and then stores the new entry; reads never touch
    [createdAt] or the order ([get] only deletes an expired entry). After
    any [set] the size is at most [MAX_CACHE_SIZE]. *)
Theorem set_evicts_oldest_tenth (now ttl : Z) (k : string) (d : jsval)
  (c : cache_store) :
  keys_unique c = true -> (length c <= MAX_CACHE_SIZE)%nat ->
  (length (set now ttl k d c) <= MAX_CACHE_SIZE)%nat
  /\ keys_unique (set now ttl k d c) = true
  /\ map_get k (set now ttl k d c) = Some (mkEntry d (now + ttl) now)
  /\ (forall (t : Z) (k' : string),
        snd (get t k' c) = c \/ snd (get t k' c) = map_delete k' c)
  /\ ((MAX_CACHE_SIZE <= length c)%nat ->
      toRemove = 100%nat
      /\ length (evicted c) = toRemove
      /\ (forall p, In p (evicted c) -> In p c)
      /\ (forall p q, In p (evicted c) -> In q c ->
            map_has (fst q) (evicted c) = false ->
            createdAt (snd p) <= createdAt (snd q))
      /\ evict c = filter (fun p => negb (map_has (fst p) (evicted c))) c
      /\ length (evict c) = (length c - toRemove)%nat
      /\ set now ttl k d c = map_set k (mkEntry d (now + ttl) now) (evict c)).
Proof.
  intros Hu Hl. split; [|split; [|split; [|split]]].
  - now apply length_set_bound.
  - now apply keys_unique_cache_set.
  - unfold set. apply map_get_set_eq.
  - intros t k'. unfold get. destruct (map_get k' c); auto.
    destruct (Z.ltb _ _); auto.
  - intros Hf. destruct (evicted_facts c Hu Hf) as [H1 [H2 [H3 H4]]].
    assert (He : evict c = filter (fun p => negb (map_has (fst p) (evicted c))) c).
    { rewrite evict_filter. apply Nat.leb_le in Hf. now rewrite Hf. }
    repeat split; auto.
    now rewrite He.
Qed.

Lemma set_evicts_oldest_tenth_witness :
  keys_unique (cache_run (fill_trace 1 1000) []) = true
  /\ (MAX_CACHE_SIZE <= length (cache_run (fill_trace 1 1000) []))%nat
  /\ length (evict (cache_run (fill_trace 1 1000) [])) = 900%nat.
Proof.
  assert (Hu : keys_unique (cache_run (fill_trace 1 1000) []) = true)
    by (vm_compute; reflexivity).
  assert (Hl : length (cache_run (fill_trace 1 1000) []) = MAX_CACHE_SIZE)
    by (vm_compute; reflexivity).
  split; [exact Hu|]. split; [rewrite Hl; apply Nat.le_refl|].
  destruct (set_evicts_oldest_tenth 2 DEFAULT_TTL "post:1" (JData "v")
              (cache_run (fill_trace 1 1000) []) Hu (Nat.eq_le_incl _ _ Hl))
    as [_ [_ [_ [_ Hfull]]]].
  destruct (Hfull (Nat.eq_le_incl _ _ (eq_sym Hl))) as [_ [_ [_ [_ [_ [Hlen _]]]]]].
  rewrite Hlen, Hl. reflexivity.
Defined.

(** Claim C4 (amended). For a GET request that is not skipped, on a miss
    the handler runs and the client gets what reaches [res.json]: the
    handler's own [res.status(st).json(body)], or for an error it throws
    the answer of [errorHandler]. That body is stored under the key. When
    it is not [null], the next request for the same key, while the entry
    is unexpired, is answered with the same body without running any
    handler, but with the default status 200, whatever [st] was. A [null]
    body reads as absent, so the next request runs the handler again. *)
Theorem hit_replays_cached_body (env : string) (o : cache_options)
  (h h' : request -> hresult) (req : request) (c : cache_store)
  (t1 t1' t2 t2' st : Z) (d : jsval) :
  method req = "GET"%string -> skipCache o req = false ->
  fst (get t1 (keyGenerator o req) c) = JNull ->
  express_response env (h req) = (st, d) ->
  t2 <= t1' + ttl o ->
  response (cacheMiddleware env o h t1 t1' req c) = HJson st d
  /\ handler_invoked (cacheMiddleware env o h t1 t1' req c) = true
  /\ (d <> JNull ->
      response (cacheMiddleware env o h' t2 t2' req
                  (cache_after (cacheMiddleware env o h t1 t1' req c))) = HJson 200 d
      /\ handler_invoked (cacheMiddleware env o h' t2 t2' req
                  (cache_after (cacheMiddleware env o h t1 t1' req c))) = false)
  /\ (d = JNull ->
      response (cacheMiddleware env o h' t2 t2' req
                  (cache_after (cacheMiddleware env o h t1 t1' req c)))
      = HJson (fst (express_response env (h' req))) (snd (express_response env (h' req)))
      /\ handler_invoked (cacheMiddleware env o h' t2 t2' req
                  (cache_after (cacheMiddleware env o h t1 t1' req c))) = true).
Proof.
  intros Hm Hs Hmiss Hh Ht.
  destruct (get t1 (keyGenerator o req) c) as [cd c1] eqn:G. simpl in Hmiss. subst cd.
  assert (E1 : cacheMiddleware env o h t1 t1' req c
               = mkOutcome (HJson st d) (set t1' (ttl o) (keyGenerator o req) d c1) true).
  { unfold cacheMiddleware. rewrite Hm, Hs. simpl. rewrite G, Hh. reflexivity. }
  rewrite E1. cbn [response handler_invoked cache_after].
  split; [reflexivity|]. split; [reflexivity|].
  unfold cacheMiddleware. rewrite Hm, Hs. simpl.
  unfold get, set. rewrite map_get_set_eq. simpl.
  destruct (Z.ltb_spec (t1' + ttl o) t2); [lia|].
  split.
  - intros Hd. destruct d as [|b]; [congruence|]. split; reflexivity.
  - intros ->. destruct (express_response env (h' req)). split; reflexivity.
Qed.

Lemma hit_replays_cached_body_witness :
  response (cacheMiddleware "production" post_cache_options
              (fun _ => HJson 404 (JData "e")) 5 6 (mkRequest "GET" "p2")
              (cache_after (cacheMiddleware "production" post_cache_options
                              (fun _ => HJson 404 (JData "e")) 0 1
                              (mkRequest "GET" "p2") [])))
  = HJson 200 (JData "e").
Proof.
  destruct (hit_replays_cached_body "production" post_cache_options
              (fun _ => HJson 404 (JData "e")) (fun _ => HJson 404 (JData "e"))
              (mkRequest "GET" "p2") [] 0 1 5 6 404 (JData "e")
              eq_refl eq_refl eq_refl eq_refl ltac:(vm_compute; discriminate))
    as [_ [_ [H _]]].
  exact (proj1 (H ltac:(discriminate))).
Defined.

(** Claim C4, counterexample: [GET /api/posts/p1] on a store without
    "p1". The miss answers 404 with the error body and caches the body;
    the following hit sends the same body with status 200. *)
Lemma hit_status_differs_cex :
  let req := mkRequest "GET" "p1" in
  let out1 := cacheMiddleware "production" post_cache_options (getPostById [] None)
                0 0 req [] in
  let out2 := cacheMiddleware "production" post_cache_options (getPostById [] None)
                1 1 req (cache_after out1) in
  response out1 = HJson 404 (JData (formatError "Post not found" "POST_NOT_FOUND"))
  /\ response out2 = HJson 200 (JData (formatError "Post not found" "POST_NOT_FOUND"))
  /\ handler_invoked out2 = false.
Proof. vm_compute. repeat split; reflexivity. Qed.

(** Claim C5 (amended). On a miss of a GET request that is not skipped, the
    handler runs. A body it sends with [res.status(st).json(b)] reaches the
    client with its status and is stored under the key, whatever the
    status, so error bodies (e.g. a 404 or 500 body) are cached too. An
    error it throws does not reach the client as it is: Express hands it
    to [errorHandler], whose [res.status(code).json({ error })] goes
    through the replaced [res.json], so that (non-null) error body is
    stored as well. *)
Theorem miss_stores_every_json_body (env : string) (o : cache_options)
  (h : request -> hresult) (req : request) (c : cache_store) (now tresp : Z) :
  method req = "GET"%string -> skipCache o req = false ->
  fst (get now (keyGenerator o req) c) = JNull ->
  handler_invoked (cacheMiddleware env o h now tresp req c) = true
  /\ (forall st b, h req = HJson st b ->
        response (cacheMiddleware env o h now tresp req c) = HJson st b
        /\ map_get (keyGenerator o req) (cache_after (cacheMiddleware env o h now tresp req c))
           = Some (mkEntry b (tresp + ttl o) tresp))
  /\ (forall e, h req = HThrow e ->
        response (cacheMiddleware env o h now tresp req c)
        = HJson (fst (errorHandler env e)) (snd (errorHandler env e))
        /\ map_get (keyGenerator o req) (cache_after (cacheMiddleware env o h now tresp req c))
           = Some (mkEntry (snd (errorHandler env e)) (tresp + ttl o) tresp)
        /\ snd (errorHandler env e) <> JNull).
Proof.
  intros Hm Hs Hmiss. unfold cacheMiddleware. rewrite Hm, Hs. simpl.
  destruct (get now (keyGenerator o req) c) as [cd c1] eqn:G. simpl in Hmiss. subst cd.
  split; [|split].
  - destruct (express_response env (h req)); reflexivity.
  - intros st b Hh. rewrite Hh. simpl. split; [reflexivity|].
    unfold set. apply map_get_set_eq.
  - intros e Hh. rewrite Hh. simpl.
    destruct (errorHandler env e) as [st b] eqn:E. simpl.
    split; [reflexivity|]. split; [unfold set; apply map_get_set_eq|].
    unfold errorHandler in E. injection E as _ <-. discriminate.
Qed.

Lemma miss_stores_every_json_body_witness :
  map_get "post:p1"
    (cache_after (cacheMiddleware "production" post_cache_options
                    (fun _ => HThrow (mkError "boom" 0 0 "")) 0 0
                    (mkRequest "GET" "p1") []))
  = Some (mkEntry (JData "error:Internal Server Error") 180000 0).
Proof.
  destruct (miss_stores_every_json_body "production" post_cache_options
              (fun _ => HThrow (mkError "boom" 0 0 ""))
              (mkRequest "GET" "p1") [] 0 0 eq_refl eq_refl eq_refl) as [_ [_ H]].
  exact (proj1 (proj2 (H _ eq_refl))).
Defined.

(** Claim C5, counterexample: the 404 error body of [getPostById] for a
    missing post is stored in the cache. *)
Lemma error_body_cached_cex :
  map_get "post:p1"
    (cache_after (cacheMiddleware "production" post_cache_options (getPostById [] None) 0 0
                    (mkRequest "GET" "p1") []))
  = Some (mkEntry (JData (formatError "Post not found" "POST_NOT_FOUND")) 180000 0).
Proof. vm_compute. reflexivity. Qed.

(** Claim C6 (amended). The invalidation calls of [likePost] are not
    guarded on their own: when the cache's [delete] throws after the store
    write succeeded, the error reaches the handler's outer [catch] and the
    client gets status 500 with that message (or "Failed to like post" for
    an empty message), although the store already holds the new likes.
    This holds with or without [io] and whatever the notifications store
    does. *)
Theorem like_invalidation_fault_gives_500 (io : bool) (nd : notif_dao) (P u : string)
  (l : list string) (p : post) (db : post_db) (c : cache_store) (lg : list effect)
  (m : string) :
  P <> ""%string -> map_get P db = Some p -> post_id p = P ->
  fst (likePost io nd (mkLikeRequest P (Some l) (Some u)) (mkWorld db c lg None (Some m)))
    = Ret (HJson 500 (JData ("error:" ++ (if String.eqb m "" then "Failed to like post" else m))))
  /\ map_get P (w_db (snd (likePost io nd (mkLikeRequest P (Some l) (Some u))
                             (mkWorld db c lg None (Some m)))))
     = Some (mkPost P (creator p) (normalize_likes l)).
Proof.
  intros HP Hg Hid.
  assert (HPe : String.eqb P "" = false) by (now apply String.eqb_neq).
  run_like Hg Hid HPe; rewrite ?Hid, map_get_set_eq; split; reflexivity.
Qed.

Lemma like_invalidation_fault_gives_500_witness :
  fst (likePost false (mkNotifDao None None true)
         (mkLikeRequest "p1" (Some ["bob"%string]) (Some "bob"%string))
         (mkWorld [("p1"%string, mkPost "p1" "alice" [])] [] [] None (Some "boom"%string)))
  = Ret (HJson 500 (JData "error:boom")).
Proof.
  exact (proj1 (like_invalidation_fault_gives_500 false (mkNotifDao None None true)
                  "p1" "bob" ["bob"%string]
                  (mkPost "p1" "alice" []) [("p1"%string, mkPost "p1" "alice" [])] [] []
                  "boom" ltac:(discriminate) eq_refl eq_refl)).
Defined.

(** Claim C6, counterexample: alice's post "p1", bob likes it, the routes
    are set up without [io] as in [src/index.js], and the cache's [delete]
    throws "boom": the response is a 500 error, not the success response,
    after the store write and the first invalidation call. *)
Lemma like_invalidation_fault_cex :
  fst (likePost false (mkNotifDao None None true)
         (mkLikeRequest "p1" (Some ["bob"%string]) (Some "bob"%string))
         (mkWorld [("p1"%string, mkPost "p1" "alice" [])]
                  (set 0 100 "post:p1" (JData "old") []) [] None (Some "boom"%string)))
  = Ret (HJson 500 (JData "error:boom"))
  /\ w_log (snd (likePost false (mkNotifDao None None true)
         (mkLikeRequest "p1" (Some ["bob"%string]) (Some "bob"%string))
         (mkWorld [("p1"%string, mkPost "p1" "alice" [])]
                  (set 0 100 "post:p1" (JData "old") []) [] None (Some "boom"%string))))
     = [EffDbWrite "p1"; EffInvalidate "post" (Some "p1"%string)].
Proof. split; vm_compute; reflexivity. Qed.

(** Claim C7. A successful like of post [P] writes the store, then calls
    [invalidateCache("post", P)] and [invalidateCache("posts")], in that
    order (the broadcast, made only when [io] is given, comes after them);
    afterwards the cache holds nothing under "post:P", so the next
    [GET /api/posts/P] is a miss, runs [getPostById], and returns the post
    with the new likes. *)
Theorem like_then_get_is_fresh (io : bool) (nd : notif_dao) (P u : string)
  (l : list string) (p : post) (db : post_db) (c : cache_store) (lg : list effect)
  (env : string) (now tresp : Z) :
  P <> ""%string -> map_get P db = Some p -> post_id p = P ->
  exists mid,
    let r := likePost io nd (mkLikeRequest P (Some l) (Some u)) (mkWorld db c lg None None) in
    let p' := mkPost P (creator p) (normalize_likes l) in
    let g := cacheMiddleware env post_cache_options (getPostById (w_db (snd r)) None)
               now tresp (mkRequest "GET" P) (w_cache (snd r)) in
    fst r = Ret (HJson 200 (JData (post_json p')))
    /\ w_log (snd r) = lg ++ [EffDbWrite P] ++ mid ++
         [EffInvalidate "post" (Some P); EffInvalidate "posts" None]
         ++ (if io then [EffEmit "*" "post-liked"] else [])
    /\ map_get (getCacheKey "post" P) (w_cache (snd r)) = None
    /\ handler_invoked g = true
    /\ response g = HJson 200 (JData (formatSuccess_one p')).
Proof.
  intros HP Hg Hid.
  destruct (likePost_success io nd P u l p db c lg HP Hg Hid) as [mid E].
  exists mid. cbv zeta. rewrite E. simpl.
  assert (Hc : map_get (getCacheKey "post" P)
                 (snd (delPattern (getCacheKey "posts" "*")
                         (map_delete (getCacheKey "post" P) c))) = None).
  { rewrite delPattern_spec. simpl. apply map_get_filter_none, map_get_delete_eq. }
  split; [reflexivity|]. split; [reflexivity|]. split; [exact Hc|].
  unfold cacheMiddleware. simpl. unfold get. rewrite Hc. simpl.
  unfold getPostById. simpl. rewrite map_get_set_eq. split; reflexivity.
Qed.

Lemma like_then_get_is_fresh_witness :
  exists mid,
    w_log (snd (likePost false (mkNotifDao None None true)
                 (mkLikeRequest "p1" (Some ["bob"%string]) (Some "bob"%string))
                 (mkWorld [("p1"%string, mkPost "p1" "alice" [])]
                          (set 0 100 "post:p1" (JData "old") []) [] None None)))
    = [EffDbWrite "p1"] ++ mid ++
        [EffInvalidate "post" (Some "p1"%string); EffInvalidate "posts" None].
Proof.
  destruct (like_then_get_is_fresh false (mkNotifDao None None true) "p1" "bob" ["bob"%string]
              (mkPost "p1" "alice" [])
              [("p1"%string, mkPost "p1" "alice" [])] (set 0 100 "post:p1" (JData "old") [])
              [] "production" 1 1 ltac:(discriminate) eq_refl eq_refl) as [mid [_ [H _]]].
  exists mid. rewrite H. simpl. rewrite ?app_nil_r. reflexivity.
Defined.

(** Claim C8. [io.to(`user-${U}`).emit(event, payload)] delivers [payload]
    under [event] to every connection registered for [U] (authenticated as
    [U] and not disconnected since), exactly once each, and to no other;
    when [U] has no registered connection the list of deliveries is empty.
    It only returns deliveries: the connection state is not changed. *)
Theorem emitToUser_delivers_once (tr : list sock_event) (U ev pl : string) :
  U <> ""%string ->
  NoDup (map to_socket (emitToUser (sock_run tr) U ev pl))
  /\ (forall s, In s (map to_socket (emitToUser (sock_run tr) U ev pl))
                <-> registered_for U s tr = true)
  /\ Forall (fun d => ev_name d = ev /\ ev_payload d = pl) (emitToUser (sock_run tr) U ev pl)
  /\ ((forall s, registered_for U s tr = false) -> emitToUser (sock_run tr) U ev pl = []).
Proof.
  intros HU. destruct (room_invariant tr U HU) as [Hn Hi].
  unfold emitToUser. rewrite map_map. cbn [to_socket]. rewrite map_id.
  split; [exact Hn|]. split; [exact Hi|]. split.
  - apply Forall_forall. intros d Hd. apply in_map_iff in Hd.
    destruct Hd as [s [<- _]]. split; reflexivity.
  - intros Hnone. destruct (room_members ("user-" ++ U) (sock_run tr)) as [|s l] eqn:E;
      [reflexivity|].
    specialize (Hi s). rewrite Hnone in Hi. discriminate (proj1 Hi (or_introl eq_refl)).
Qed.

Lemma emitToUser_delivers_once_witness :
  emitToUser (sock_run [Authenticate "s1" "U"; Authenticate "s2" "U"]) "U"
             "new-notification" "payload"
  = [mkDelivery "s1" "new-notification" "payload";
     mkDelivery "s2" "new-notification" "payload"]
  /\ NoDup (map to_socket (emitToUser (sock_run [Authenticate "s1" "U"; Authenticate "s2" "U"])
                                      "U" "new-notification" "payload")).
Proof.
  split; [reflexivity|].
  apply (emitToUser_delivers_once [Authenticate "s1" "U"; Authenticate "s2" "U"]
           "U" "new-notification" "payload"); discriminate.
Defined.

(** Claim C9, counterexample: two connections [s1] and [s2] authenticate as
    [U]; the registry entry for [U] holds only [s2]. When [s2] closes the
    entry is removed although [s1] is still open and registered for [U]. *)
Lemma userSockets_keeps_one_cex :
  map_get "U" (userSockets (sock_run [Authenticate "s1" "U"; Authenticate "s2" "U"]))
    = Some "s2"%string
  /\ map_get "U" (userSockets (sock_run [Authenticate "s1" "U"; Authenticate "s2" "U";
                                         Disconnect "s2"])) = None
  /\ registered_for "U" "s1" [Authenticate "s1" "U"; Authenticate "s2" "U"; Disconnect "s2"]
     = true.
Proof. repeat split; reflexivity. Qed.

(** Claim C9 (amended). The registry maps a user to one connection id, the one
    that authenticated last ([userSockets.set] overwrites). A disconnect of
    [s] removes the first entry whose id is [s]: an entry holding another
    id stays, an entry holding [s] goes, whatever other connections of that
    user remain open; when no entry holds [s] the registry is unchanged. *)
Theorem userSockets_latest_socket (st : io_state) (s s' u U : string) :
  (u <> ""%string -> map_get u (userSockets (authenticate s u st)) = Some s)
  /\ (keys_unique (userSockets st) = true -> map_get U (userSockets st) = Some s' ->
      s' <> s -> map_get U (userSockets (disconnect s st)) = Some s')
  /\ (first_user_of s (userSockets st) = Some U ->
      map_get U (userSockets (disconnect s st)) = None)
  /\ (first_user_of s (userSockets st) = None ->
      userSockets (disconnect s st) = userSockets st).
Proof.
  split; [|split; [|split]].
  - intros Hu. unfold authenticate.
    destruct (String.eqb_spec u ""); [contradiction|]. apply map_get_set_eq.
  - intros Hk Hg Hne. unfold disconnect. cbn [userSockets].
    destruct (first_user_of s (userSockets st)) as [u'|] eqn:F; [|exact Hg].
    rewrite map_get_delete_neq; [exact Hg|].
    intros ->. apply first_user_of_In in F.
    rewrite (In_map_get _ _ _ Hk F) in Hg. congruence.
  - intros F. unfold disconnect. cbn [userSockets]. rewrite F. apply map_get_delete_eq.
  - intros F. unfold disconnect. cbn [userSockets]. now rewrite F.
Qed.

Lemma userSockets_latest_socket_witness :
  map_get "U" (userSockets (authenticate "s2" "U"
                 (sock_run [Authenticate "s1" "U"]))) = Some "s2"%string
  /\ map_get "U" (userSockets (disconnect "s1"
                   (sock_run [Authenticate "s1" "U"; Authenticate "s2" "U"]))) = Some "s2"%string
  /\ map_get "U" (userSockets (disconnect "s2"
                   (sock_run [Authenticate "s1" "U"; Authenticate "s2" "U"]))) = None.
Proof.
  destruct (userSockets_latest_socket (sock_run [Authenticate "s1" "U"]) "s2" "s2" "U" "U")
    as [H1 _].
  destruct (userSockets_latest_socket (sock_run [Authenticate "s1" "U"; Authenticate "s2" "U"])
              "s1" "s2" "U" "U") as [_ [H2 _]].
  destruct (userSockets_latest_socket (sock_run [Authenticate "s1" "U"; Authenticate "s2" "U"])
              "s2" "s2" "U" "U") as [_ [_ [H3 _]]].
  split; [apply H1; discriminate|]. split.
  - apply H2; [apply userSockets_keys_unique|reflexivity|discriminate].
  - apply H3. reflexivity.
Defined.

(** * Further properties of the cache utility *)

Lemma length_filter_split {A} (f : A -> bool) (l : list A) :
  length l = (length (filter (fun x => negb (f x)) l) + length (filter f l))%nat.
Proof.
  induction l as [|x r IH]; simpl; auto.
  destruct (f x); simpl; lia.
Qed.

Lemma filter_idem_neg {A} (f : A -> bool) (l : list A) :
  filter (fun x => negb (f x)) (filter (fun x => negb (f x)) l)
  = filter (fun x => negb (f x)) l
  /\ filter f (filter (fun x => negb (f x)) l) = [].
Proof.
  induction l as [|x r [IH1 IH2]]; simpl; auto.
  destruct (f x) eqn:E; simpl; auto. rewrite E. simpl. now rewrite IH1, IH2.
Qed.

(** getStats and cleanup: every entry is counted once, as active or as
    expired; cleanup removes exactly the expired ones and reports their
    number; after it, at the same time, nothing is expired and the total
    is the former number of active entries. *)
Theorem getStats_cleanup (now : Z) (c : cache_store) :
  st_total (getStats now c) = (st_active (getStats now c) + st_expired (getStats now c))%nat
  /\ fst (cleanup now c) = st_expired (getStats now c)
  /\ getStats now (snd (cleanup now c))
     = mkStats (st_active (getStats now c)) (st_active (getStats now c)) 0 MAX_CACHE_SIZE.
Proof.
  unfold getStats, cleanup. cbn [st_total st_active st_expired fst snd].
  split; [apply (length_filter_split (fun p => Z.ltb (expiresAt (snd p)) now))|].
  split; [reflexivity|].
  destruct (filter_idem_neg (fun p => Z.ltb (expiresAt (snd p)) now) c) as [H1 H2].
  cbv beta in H1, H2. now rewrite H1, H2.
Qed.

(** cleanup at time [now] is invisible to every later read: for distinct
    keys, get at any time [t >= now] returns the same value with or without
    the cleanup. *)
Theorem cleanup_invisible_to_get (now t : Z) (k : string) (c : cache_store) :
  keys_unique c = true -> now <= t ->
  fst (get t k (snd (cleanup now c))) = fst (get t k c).
Proof.
  intros Hk Ht. unfold get, cleanup. cbn [snd].
  destruct (map_get k c) as [e|] eqn:G.
  - destruct (Z.ltb (expiresAt e) now) eqn:X.
    + destruct (map_get_filter_sub (fun p => negb (Z.ltb (expiresAt (snd p)) now)) k c Hk)
        as [N|S]; rewrite ?N.
      * destruct (Z.ltb_spec (expiresAt e) t); [reflexivity|].
        apply Z.ltb_lt in X. lia.
      * rewrite G in S. apply map_get_In in S. apply filter_In in S.
        destruct S as [_ S]. simpl in S. rewrite X in S. discriminate.
    + rewrite (map_get_filter_keep _ k e c G); [now destruct (Z.ltb (expiresAt e) t)|].
      simpl. now rewrite X.
  - now rewrite map_get_filter_none.
Qed.

Lemma cleanup_invisible_to_get_witness :
  fst (get 6 "a" (snd (cleanup 5 [("a"%string, mkEntry (JData "x") 7 0);
                                    ("b"%string, mkEntry (JData "y") 3 0)])))
  = JData "x".
Proof.
  rewrite (cleanup_invisible_to_get 5 6 "a"
             [("a"%string, mkEntry (JData "x") 7 0); ("b"%string, mkEntry (JData "y") 3 0)]);
    [| reflexivity | lia].
  reflexivity.
Defined.

(** del reports whether the key was stored, after it get finds nothing
    under the key, every other key is left as it was, and a second del of
    the same key reports false. *)
Theorem del_spec (k : string) (c : cache_store) :
  fst (del k c) = map_has k c
  /\ (forall t, fst (get t k (snd (del k c))) = JNull)
  /\ (forall k', k' <> k -> map_get k' (snd (del k c)) = map_get k' c)
  /\ fst (del k (snd (del k c))) = false.
Proof.
  split; [reflexivity|]. split; [|split].
  - intros t. unfold get. simpl. now rewrite map_get_delete_eq.
  - intros k' Hne. apply map_get_delete_neq. congruence.
  - simpl. unfold map_has, map_delete. induction c as [|[k0 e0] r IH]; simpl; auto.
    destruct (String.eqb_spec k0 k); simpl; auto.
    destruct (String.eqb_spec k0 k); [contradiction|]. simpl. exact IH.
Qed.

Lemma map_has_filter_keys (E : list (string * entry)) (k : string) (c : cache_store) :
  map_has k (filter (fun p => negb (map_has (fst p) E)) c)
  = map_has k c && negb (map_has k E).
Proof.
  induction c as [|[k0 e0] r IH]; simpl; auto.
  destruct (map_has k0 E) eqn:H0; simpl.
  - rewrite IH. destruct (String.eqb_spec k0 k) as [->|]; simpl.
    + rewrite H0. now rewrite andb_false_r.
    + reflexivity.
  - rewrite IH. destruct (String.eqb_spec k0 k) as [->|]; simpl.
    + now rewrite H0.
    + reflexivity.
Qed.

Lemma length_map_set_has {V} (k : string) (v : V) (m : jsmap V) :
  length (map_set k v m) = if map_has k m then length m else S (length m).
Proof.
  induction m as [|[k0 v0] r IH]; simpl; auto.
  destruct (String.eqb k0 k); simpl; auto. rewrite IH. now destruct (map_has k r).
Qed.

(** A set on a full cache (1000 entries, distinct keys) always drops the
    100 oldest entries first, even when the key is already cached: the
    cache then holds 900 entries when the key survived the eviction (its
    entry is updated in place) and 901 otherwise. *)
Theorem set_full_cache_size (now ttl : Z) (k : string) (d : jsval) (c : cache_store) :
  keys_unique c = true -> length c = MAX_CACHE_SIZE ->
  length (set now ttl k d c)
  = if map_has k c && negb (map_has k (evicted c)) then 900%nat else 901%nat.
Proof.
  intros Hk Hl. unfold set. rewrite length_map_set_has, evict_filter.
  assert (Hle : Nat.leb MAX_CACHE_SIZE (length c) = true) by (rewrite Hl; reflexivity).
  rewrite Hle, map_has_filter_keys.
  destruct (evicted_facts c Hk ltac:(lia)) as [_ [_ [_ Hlen]]].
  rewrite Hlen, Hl, toRemove_value. now destruct (map_has k c && negb (map_has k (evicted c))).
Qed.

Lemma set_full_cache_size_witness :
  length (set 5 DEFAULT_TTL "k0" (JData "y") (cache_run (fill_trace 1 1000) [])) = 901%nat.
Proof.
  rewrite (set_full_cache_size 5 DEFAULT_TTL "k0" (JData "y") (cache_run (fill_trace 1 1000) []));
    [| apply (proj1 (reachable_cache_wf (fill_trace 1 1000))) | vm_compute; reflexivity].
  vm_compute. reflexivity.
Defined.

(** A request through the cache middleware leaves every other key of a
    cache that is not full as it was: only the request's own key can be
    read, deleted when expired, or stored. *)
Theorem cacheMiddleware_other_keys (env : string) (o : cache_options) (h : request -> hresult)
  (now tresp : Z) (req : request) (c : cache_store) (k' : string) :
  (length c < MAX_CACHE_SIZE)%nat -> k' <> keyGenerator o req ->
  map_get k' (cache_after (cacheMiddleware env o h now tresp req c)) = map_get k' c.
Proof.
  intros Hl Hne. unfold cacheMiddleware.
  destruct (negb (String.eqb (method req) "GET") || skipCache o req).
  { destruct (express_response env (h req)). reflexivity. }
  assert (Hg : map_get k' (snd (get now (keyGenerator o req) c)) = map_get k' c
               /\ (length (snd (get now (keyGenerator o req) c)) <= length c)%nat).
  { unfold get. destruct (map_get (keyGenerator o req) c) as [e|]; [|simpl; auto].
    destruct (Z.ltb (expiresAt e) now); simpl; auto.
    split; [apply map_get_delete_neq; congruence | apply length_filter_le]. }
  destruct (get now (keyGenerator o req) c) as [cd c1]. simpl in Hg. destruct Hg as [Hg Hl1].
  destruct cd; [|exact Hg].
  destruct (express_response env (h req)). simpl.
  unfold set, evict. rewrite map_get_set_neq by congruence.
  destruct (Nat.leb_spec MAX_CACHE_SIZE (length c1)); [lia|]. exact Hg.
Qed.

Lemma cacheMiddleware_other_keys_witness :
  map_get "post:p2"
    (cache_after (cacheMiddleware "production" post_cache_options (getPostById [] None) 0 0
                    (mkRequest "GET" "p1") [("post:p2"%string, mkEntry (JData "z") 100 0)]))
  = Some (mkEntry (JData "z") 100 0).
Proof.
  apply (cacheMiddleware_other_keys "production" post_cache_options (getPostById [] None) 0 0
           (mkRequest "GET" "p1") [("post:p2"%string, mkEntry (JData "z") 100 0)] "post:p2");
    [vm_compute; lia | discriminate].
Defined.

(** * Further properties of the id mapper and the posts routes *)

Lemma map_set_same {V} (k : string) (v : V) (m : jsmap V) :
  map_get k m = Some v -> map_set k v m = m.
Proof.
  induction m as [|[k0 v0] r IH]; simpl; [discriminate|].
  destruct (String.eqb_spec k0 k) as [->|]; [injection 1 as ->; reflexivity|].
  intros H. now rewrite IH.
Qed.

Lemma map_get_set_ids (id : json) (m : list (string * json)) (k : string) :
  map_get k (set_ids id m)
  = if String.eqb k "_id" || String.eqb k "id" || String.eqb k "$id" then Some id
    else map_get k m.
Proof.
  unfold set_ids.
  destruct (String.eqb_spec k "$id") as [->|N3]; [rewrite map_get_set_eq; now rewrite orb_true_r|].
  rewrite map_get_set_neq by congruence.
  destruct (String.eqb_spec k "id") as [->|N2]; [rewrite map_get_set_eq; reflexivity|].
  rewrite map_get_set_neq by congruence.
  destruct (String.eqb_spec k "_id") as [->|N1]; [rewrite map_get_set_eq; reflexivity|].
  rewrite map_get_set_neq by congruence. reflexivity.
Qed.

Lemma set_ids_idem (id : json) (m : list (string * json)) :
  set_ids id (set_ids id m) = set_ids id m.
Proof.
  unfold set_ids at 1.
  rewrite (map_set_same "_id" id); [| rewrite map_get_set_ids; reflexivity].
  rewrite (map_set_same "id" id); [| rewrite map_get_set_ids; reflexivity].
  rewrite (map_set_same "$id" id); [| rewrite map_get_set_ids; reflexivity].
  reflexivity.
Qed.

Lemma extractId_set_ids (id : json) (m : list (string * json)) :
  truthy id = true -> extractId (JSObj (set_ids id m)) = id.
Proof.
  intros Ht. unfold extractId, js_or, prop. rewrite !map_get_set_ids. simpl.
  repeat (rewrite Ht; simpl). reflexivity.
Qed.

(** Reading one of the id fields of [JSObj (map_set "creator" x m)]. *)
Lemma extractId_set_creator (x : json) (m : list (string * json)) :
  extractId (JSObj (map_set "creator" x m)) = extractId (JSObj m).
Proof.
  unfold extractId, prop. simpl.
  rewrite !map_get_set_neq by discriminate. reflexivity.
Qed.

Lemma extractId_obj_falsy (m m' : list (string * json)) :
  map_get "_id" m' = map_get "_id" m -> map_get "id" m' = map_get "id" m ->
  map_get "$id" m' = map_get "$id" m ->
  extractId (JSObj m') = extractId (JSObj m).
Proof. intros H1 H2 H3. unfold extractId, prop. simpl. now rewrite H1, H2, H3. Qed.

Lemma prop_creator_set_ids (id : json) (m : list (string * json)) :
  prop "creator" (JSObj (set_ids id m)) = prop "creator" (JSObj m).
Proof. unfold prop. now rewrite map_get_set_ids. Qed.

Lemma mapIdForFrontend_obj (f : list (string * json)) :
  mapIdForFrontend (JSObj f)
  = JSObj (let id := extractId (JSObj f) in
           let m1 := if truthy id then set_ids id f else f in
           let cr := prop "creator" (JSObj f) in
           if truthy cr && is_object cr then
             let cid := extractId cr in
             if truthy cid then map_set "creator" (JSObj (set_ids cid (spread cr))) m1 else m1
           else m1).
Proof. reflexivity. Qed.

Lemma set_ids_fixed (id : json) (m : list (string * json)) :
  map_get "_id" m = Some id -> map_get "id" m = Some id -> map_get "$id" m = Some id ->
  set_ids id m = m.
Proof.
  intros H1 H2 H3. unfold set_ids.
  rewrite (map_set_same "_id" id m H1), (map_set_same "id" id m H2).
  exact (map_set_same "$id" id m H3).
Qed.

(** mapIdForFrontend is idempotent on objects: mapping an already mapped
    document changes nothing. *)
Theorem mapIdForFrontend_idempotent (f : list (string * json)) :
  mapIdForFrontend (mapIdForFrontend (JSObj f)) = mapIdForFrontend (JSObj f).
Proof.
  rewrite (mapIdForFrontend_obj f). cbv zeta.
  remember (extractId (JSObj f)) as id eqn:Hid.
  remember (prop "creator" (JSObj f)) as cr eqn:Hcr.
  remember (if truthy id then set_ids id f else f) as m1 eqn:Hm1def.
  assert (Hid1 : extractId (JSObj m1) = id).
  { subst m1. destruct (truthy id) eqn:T; [now apply extractId_set_ids|now rewrite Hid]. }
  assert (Hcr1 : prop "creator" (JSObj m1) = cr).
  { subst m1 cr. destruct (truthy id); [apply prop_creator_set_ids|reflexivity]. }
  assert (Hm1 : (if truthy id then set_ids id m1 else m1) = m1).
  { subst m1. destruct (truthy id); [apply set_ids_idem|reflexivity]. }
  assert (Hm1ids : truthy id = true ->
            map_get "_id" m1 = Some id /\ map_get "id" m1 = Some id
            /\ map_get "$id" m1 = Some id).
  { intros Ti. rewrite Hm1def, Ti, !map_get_set_ids. auto. }
  destruct (truthy cr && is_object cr) eqn:C.
  - destruct (truthy (extractId cr)) eqn:T.
    + remember (JSObj (set_ids (extractId cr) (spread cr))) as X eqn:HXdef.
      rewrite mapIdForFrontend_obj. cbv zeta.
      rewrite extractId_set_creator, Hid1.
      assert (HX : prop "creator" (JSObj (map_set "creator" X m1)) = X).
      { unfold prop. now rewrite map_get_set_eq. }
      assert (HcX : extractId X = extractId cr) by (subst X; now apply extractId_set_ids).
      assert (HXo : truthy X && is_object X = true) by (subst X; reflexivity).
      assert (HsX : JSObj (set_ids (extractId cr) (spread X)) = X).
      { subst X. simpl spread. now rewrite set_ids_idem. }
      rewrite HX, HXo, HcX, T, HsX.
      assert (Hm1' : (if truthy id then set_ids id (map_set "creator" X m1)
                      else map_set "creator" X m1) = map_set "creator" X m1).
      { destruct (truthy id) eqn:Ti; [|reflexivity].
        destruct (Hm1ids ltac:(first [exact Ti | reflexivity])) as [G1 [G2 G3]].
        apply set_ids_fixed; rewrite map_get_set_neq by discriminate; assumption. }
      rewrite Hm1'. rewrite (map_set_same "creator" X); [reflexivity|].
      now rewrite map_get_set_eq.
    + rewrite mapIdForFrontend_obj. cbv zeta.
      rewrite Hid1, Hm1, Hcr1, C, T. reflexivity.
  - rewrite mapIdForFrontend_obj. cbv zeta.
    rewrite Hid1, Hm1, Hcr1, C. reflexivity.
Qed.

(** mapIdForFrontend on an object keeps every field other than [_id],
    [id], [$id] and [creator]; when the object has an id ([_id], else
    [id], else [$id], the first truthy one) it is written to all three
    fields; when [creator] is an object with an id, that id is written to
    the three id fields of the creator. *)
Theorem mapIdForFrontend_fields (f : list (string * json)) :
  (forall k, k <> "_id"%string -> k <> "id"%string -> k <> "$id"%string ->
     k <> "creator"%string ->
     prop k (mapIdForFrontend (JSObj f)) = prop k (JSObj f))
  /\ (truthy (extractId (JSObj f)) = true ->
      prop "_id" (mapIdForFrontend (JSObj f)) = extractId (JSObj f)
      /\ prop "id" (mapIdForFrontend (JSObj f)) = extractId (JSObj f)
      /\ prop "$id" (mapIdForFrontend (JSObj f)) = extractId (JSObj f))
  /\ (forall cf, prop "creator" (JSObj f) = JSObj cf -> truthy (extractId (JSObj cf)) = true ->
      prop "_id" (prop "creator" (mapIdForFrontend (JSObj f))) = extractId (JSObj cf)
      /\ prop "id" (prop "creator" (mapIdForFrontend (JSObj f))) = extractId (JSObj cf)
      /\ prop "$id" (prop "creator" (mapIdForFrontend (JSObj f))) = extractId (JSObj cf)).
Proof.
  rewrite (mapIdForFrontend_obj f). cbv zeta.
  remember (extractId (JSObj f)) as id eqn:Hid.
  remember (prop "creator" (JSObj f)) as cr eqn:Hcr.
  remember (if truthy id then set_ids id f else f) as m1 eqn:Hm1def.
  assert (Hm2 : forall k, k <> "creator"%string ->
            map_get k (if truthy cr && is_object cr
                       then if truthy (extractId cr)
                            then map_set "creator" (JSObj (set_ids (extractId cr) (spread cr))) m1
                            else m1
                       else m1) = map_get k m1).
  { intros k Hk. destruct (truthy cr && is_object cr); [|reflexivity].
    destruct (truthy (extractId cr)); [|reflexivity]. apply map_get_set_neq. congruence. }
  split; [|split].
  - intros k H1 H2 H3 H4. unfold prop at 1. rewrite Hm2 by exact H4. subst m1.
    destruct (truthy id); [|reflexivity]. rewrite map_get_set_ids.
    destruct (String.eqb_spec k "_id"), (String.eqb_spec k "id"), (String.eqb_spec k "$id");
      try contradiction. reflexivity.
  - intros T. unfold prop. rewrite !Hm2 by discriminate. subst m1. rewrite T.
    rewrite !map_get_set_ids. repeat split; reflexivity.
  - intros cf Hc Tc. rewrite Hc. simpl. rewrite Tc.
    unfold prop. rewrite !map_get_set_eq. simpl spread.
    rewrite !map_get_set_ids. repeat split; reflexivity.
Qed.

Lemma mapIdForFrontend_fields_witness :
  prop "$id" (mapIdForFrontend (JSObj [("_id"%string, JSStr "p1"); ("caption"%string, JSStr "hi")]))
  = JSStr "p1".
Proof.
  destruct (mapIdForFrontend_fields [("_id"%string, JSStr "p1"); ("caption"%string, JSStr "hi")])
    as [_ [H _]].
  exact (proj2 (proj2 (H eq_refl))).
Defined.

Lemma prefix_app (s t : string) : String.prefix s (s ++ t) = true.
Proof.
  induction s as [|a r IH]; simpl; [destruct t; reflexivity|].
  destruct (ascii_dec a a); [exact IH | contradiction].
Qed.

(** Every page of the posts list is cached under a key that
    [invalidateCache("posts")] removes, whatever its [sortBy], [limit] and
    [skip]; [invalidateCache("post", id)] never touches those keys. *)
Theorem posts_list_pages_invalidated (sortBy limit skip : option string)
  (P : string) (c : cache_store) :
  map_get (posts_list_key sortBy limit skip) (invalidateCache "posts" None c) = None
  /\ map_get (posts_list_key sortBy limit skip) (invalidateCache "post" (Some P) c)
     = map_get (posts_list_key sortBy limit skip) c.
Proof.
  set (rest := (or_default sortBy "latest" ++ ":" ++ or_default limit "20" ++ ":"
                ++ or_default skip "0")%string).
  assert (Hk : posts_list_key sortBy limit skip = ("posts:" ++ rest)%string)
    by reflexivity.
  rewrite Hk. split.
  - assert (Hr : replace_first_star (getCacheKey "posts" "*") = "posts:"%string)
      by reflexivity.
    unfold invalidateCache. rewrite delPattern_spec. cbv zeta. rewrite Hr. cbn [snd].
    apply map_get_filter_drop. intros v. cbn [fst].
    now rewrite (prefix_app "posts:").
  - unfold invalidateCache. destruct (String.eqb P "").
    + assert (Hr : replace_first_star (getCacheKey "post" "*") = "post:"%string)
        by reflexivity.
      rewrite delPattern_spec. cbv zeta. rewrite Hr. cbn [snd].
      apply map_get_filter_same. intros v. reflexivity.
    + cbn [snd del]. apply map_get_delete_neq. intros H. inversion H.
Qed.

(** * Tags *)

Lemma split_comma_no_sep (s : string) :
  forallb no_sep (split_comma (remove_spaces s)) = true.
Proof.
  induction s as [|a r IH]; [reflexivity|]. simpl.
  destruct (Ascii.eqb a " ") eqn:Sp; [exact IH|]. simpl.
  destruct (Ascii.eqb a ",") eqn:Co; simpl; [exact IH|].
  destruct (split_comma (remove_spaces r)) as [|seg rest]; simpl in *.
  - rewrite Sp, Co. reflexivity.
  - rewrite Sp, Co. simpl. exact IH.
Qed.

Lemma forallb_filter {A} (f g : A -> bool) (l : list A) :
  forallb f l = true -> forallb (fun x => g x && f x) (filter g l) = true.
Proof.
  induction l as [|x r IH]; simpl; auto. intros H. apply andb_true_iff in H as [H1 H2].
  destruct (g x) eqn:G; simpl; auto. rewrite G, H1. simpl. auto.
Qed.

Lemma remove_spaces_no_sep (t : string) : no_sep t = true -> remove_spaces t = t.
Proof.
  induction t as [|a r IH]; simpl; auto. intros H. apply andb_true_iff in H as [H1 H2].
  apply negb_true_iff, orb_false_iff in H1 as [H1 _]. rewrite H1. now rewrite IH.
Qed.

Lemma remove_spaces_app (s t : string) :
  remove_spaces (s ++ t) = (remove_spaces s ++ remove_spaces t)%string.
Proof.
  induction s as [|a r IH]; simpl; auto. destruct (Ascii.eqb a " "); simpl; congruence.
Qed.

Lemma split_comma_single (t : string) : no_sep t = true -> split_comma t = [t].
Proof.
  induction t as [|a r IH]; simpl; auto. intros H. apply andb_true_iff in H as [H1 H2].
  apply negb_true_iff, orb_false_iff in H1 as [_ H1]. rewrite H1, IH by exact H2. reflexivity.
Qed.

Lemma split_comma_app (t r : string) :
  no_sep t = true -> split_comma (t ++ String "," r) = t :: split_comma r.
Proof.
  induction t as [|a t' IH]; simpl; auto. intros H. apply andb_true_iff in H as [H1 H2].
  apply negb_true_iff, orb_false_iff in H1 as [_ H1]. rewrite H1, IH by exact H2. reflexivity.
Qed.

(** The tags of [createPost] and [updatePost]: every parsed tag is
    non-empty and holds no space and no comma; a list of such tags joined
    with commas parses back to the same list (the empty list included). *)
Theorem parse_tags_roundtrip :
  (forall s, forallb tag_ok (parse_tags s) = true)
  /\ (forall tags, forallb tag_ok tags = true -> parse_tags (String.concat "," tags) = tags).
Proof.
  split.
  - intros s. unfold parse_tags, tag_ok.
    apply (forallb_filter no_sep (fun t => negb (String.eqb t ""))), split_comma_no_sep.
  - intros tags H. unfold parse_tags.
    assert (E : forall ts, forallb tag_ok ts = true ->
              split_comma (remove_spaces (String.concat "," ts))
              = match ts with [] => [""%string] | _ => ts end).
    { induction ts as [|t ts IH]; [reflexivity|]. intros Hts.
      cbn [forallb] in Hts.
      apply andb_true_iff in Hts as [Ht Hts]. unfold tag_ok in Ht.
      apply andb_true_iff in Ht as [_ Ht].
      destruct ts as [|t2 ts2].
      - change (String.concat "," [t]) with t.
        rewrite remove_spaces_no_sep by exact Ht. now apply split_comma_single.
      - change (String.concat "," (t :: t2 :: ts2))
          with (t ++ String "," (String.concat "," (t2 :: ts2)))%string.
        assert (Hc : forall r, remove_spaces (String "," r) = String "," (remove_spaces r))
          by reflexivity.
        rewrite remove_spaces_app, remove_spaces_no_sep, Hc by exact Ht.
        rewrite split_comma_app by exact Ht. now rewrite (IH Hts). }
    rewrite (E tags H). destruct tags as [|t ts]; [reflexivity|].
    apply filter_all_true_in. intros x Hx. rewrite forallb_forall in H.
    specialize (H x Hx). unfold tag_ok in H. now apply andb_true_iff in H as [H _].
Qed.

(** * Further properties of the response formatter *)

Lemma mapIdForFrontend_id_fields (f : list (string * json)) :
  truthy (extractId (JSObj f)) = true ->
  prop "_id" (mapIdForFrontend (JSObj f)) = extractId (JSObj f)
  /\ prop "id" (mapIdForFrontend (JSObj f)) = extractId (JSObj f)
  /\ prop "$id" (mapIdForFrontend (JSObj f)) = extractId (JSObj f).
Proof.
  intros T. rewrite (mapIdForFrontend_obj f). cbv zeta.
  remember (extractId (JSObj f)) as id eqn:Hid.
  remember (prop "creator" (JSObj f)) as cr eqn:Hcr.
  assert (Hm2 : forall k m1, k <> "creator"%string ->
            map_get k (if truthy cr && is_object cr
                       then if truthy (extractId cr)
                            then map_set "creator" (JSObj (set_ids (extractId cr) (spread cr))) m1
                            else m1
                       else m1) = map_get k m1).
  { intros k m1 Hk. destruct (truthy cr && is_object cr); [|reflexivity].
    destruct (truthy (extractId cr)); [|reflexivity]. apply map_get_set_neq. congruence. }
  unfold prop. rewrite !Hm2 by discriminate. rewrite T, !map_get_set_ids.
  repeat split; reflexivity.
Qed.

(** [formatSuccessResponse] maps the ids of the documents of an array, but
    not of a single object: an object with a truthy [_id] and no [id]
    field is sent as it is, without [id], while the same object inside an
    array gets [id] set to its [_id]. *)
Theorem formatSuccessResponse_single_object_unmapped (f : list (string * json)) (t : json) :
  map_get "id" f = None -> truthy (prop "_id" (JSObj f)) = true ->
  prop "documents" (formatSuccessResponse (JSObj f) t) = JSArr [JSObj f]
  /\ prop "id" (JSObj f) = JSUndef
  /\ exists g, prop "documents" (formatSuccessResponse (JSArr [JSObj f]) t) = JSArr [g]
               /\ prop "id" g = prop "_id" (JSObj f).
Proof.
  intros Hn Ht. split; [reflexivity|]. split; [unfold prop; now rewrite Hn|].
  assert (He : extractId (JSObj f) = prop "_id" (JSObj f)).
  { unfold extractId, js_or. change (truthy (JSObj f)) with true. cbv beta iota.
    rewrite Ht. cbv beta iota. rewrite Ht. cbv beta iota. rewrite Ht. reflexivity. }
  exists (mapIdForFrontend (JSObj f)). split; [reflexivity|].
  rewrite <- He. apply (mapIdForFrontend_id_fields f). now rewrite He.
Qed.

Lemma formatSuccessResponse_single_object_unmapped_witness :
  prop "documents"
    (formatSuccessResponse (JSObj [("_id"%string, JSStr "p1")]) JSNull)
  = JSArr [JSObj [("_id"%string, JSStr "p1")]].
Proof.
  exact (proj1 (formatSuccessResponse_single_object_unmapped
                  [("_id"%string, JSStr "p1")] JSNull eq_refl eq_refl)).
Defined.

(** * Updating and deleting posts *)

Lemma map_has_false_get {V} (k : string) (m : jsmap V) :
  map_has k m = false -> map_get k m = None.
Proof.
  unfold map_has. induction m as [|[k0 v0] r IH]; simpl; auto.
  intros H. apply orb_false_iff in H as [H1 H2]. rewrite H1. auto.
Qed.


Lemma map_get_filter_images (body : jsmap json) (k : string) :
  map_get k (filter (fun p => negb (str_mem (fst p) image_fields)) body)
  = if str_mem k image_fields then None else map_get k body.
Proof.
  destruct (str_mem k image_fields) eqn:I.
  - apply map_get_filter_drop. intros v. cbn [fst]. now rewrite I.
  - apply map_get_filter_same. intros v. cbn [fst]. now rewrite I.
Qed.

Lemma post_updates_get (body : jsmap json) (k : string) :
  map_get k (post_updates body)
  = if str_mem k image_fields then None
    else if String.eqb k "tags" then
      match map_get "tags" body with
      | Some (JSStr t) =>
          if String.eqb t "" then Some (JSStr t) else Some (JSArr (map JSStr (parse_tags t)))
      | o => o
      end
    else map_get k body.
Proof.
  assert (Htag : str_mem "tags" image_fields = false) by reflexivity.
  unfold post_updates. rewrite (map_get_filter_images body "tags"), Htag.
  destruct (String.eqb_spec k "tags") as [->|E].
  - rewrite Htag.
    destruct (map_get "tags" body) as [[| | | |t| |]|] eqn:B;
      rewrite ?map_get_filter_images, ?Htag, ?B; try reflexivity.
    destruct (String.eqb t "") eqn:T.
    + rewrite map_get_filter_images, Htag, B. apply String.eqb_eq in T. now subst.
    + apply map_get_set_eq.
  - assert (Hs : forall u, map_get k (match map_get "tags" body with
                   | Some (JSStr t) => if String.eqb t "" then u
                                       else map_set "tags" (JSArr (map JSStr (parse_tags t))) u
                   | _ => u end) = map_get k u).
    { intros u. destruct (map_get "tags" body) as [[| | | |t| |]|]; try reflexivity.
      destruct (String.eqb t ""); [reflexivity|]. apply map_get_set_neq. congruence. }
    rewrite Hs. apply map_get_filter_images.
Qed.


(** The two invalidations that follow an update or a deletion of post [P]:
    afterwards the cache holds nothing under "post:P" nor under any key
    of the posts lists ("posts:..."); every other entry is kept as it was. *)
Theorem post_invalidation_keys (P k : string) (c : cache_store) :
  P <> ""%string ->
  map_get k (invalidateCache "posts" None (invalidateCache "post" (Some P) c))
  = if String.prefix "posts:" k || String.eqb k ("post:" ++ P) then None else map_get k c.
Proof.
  intros HP. unfold invalidateCache.
  destruct (String.eqb_spec P "") as [E|_]; [contradiction|].
  assert (Hr : replace_first_star (getCacheKey "posts" "*") = "posts:"%string)
    by reflexivity.
  rewrite delPattern_spec. cbv zeta. rewrite Hr. cbn [snd del].
  destruct (String.prefix "posts:" k) eqn:Pk; cbn [orb].
  - apply map_get_filter_drop. intros v. cbn [fst]. now rewrite Pk.
  - rewrite map_get_filter_same by (intros v; cbn [fst]; now rewrite Pk).
    change (getCacheKey "post" P) with ("post:" ++ P)%string.
    destruct (String.eqb_spec k ("post:" ++ P)) as [->|E].
    + apply map_get_delete_eq.
    + apply map_get_delete_neq. congruence.
Qed.

Lemma post_invalidation_keys_witness :
  map_get "user:u1"
    (invalidateCache "posts" None (invalidateCache "post" (Some "p1"%string)
       [("post:p1"%string, mkEntry (JData "a") 0 10); ("user:u1"%string, mkEntry (JData "b") 0 10)]))
  = Some (mkEntry (JData "b") 0 10).
Proof.
  exact (post_invalidation_keys "p1" "user:u1"
           [("post:p1"%string, mkEntry (JData "a") 0 10); ("user:u1"%string, mkEntry (JData "b") 0 10)]
           ltac:(discriminate)).
Defined.

(** The failure branches of [updatePost] and [deletePost]: a JSON response
    with the store and the cache as they were. *)
Ltac handler_fails H :=
  injection H as <- <- <-; right; refine (conj eq_refl (conj eq_refl _));
  eexists _, _; split; [reflexivity | simpl; tauto].

(** The outcomes of [updatePost], whatever [updateOne] does: a 401, 403,
    404 or 500 answer that changes neither the store nor the cache; or,
    for the logged-in creator whose write went through, the post replaced
    by the written document and either the 200 answer with "post:P" and
    the posts lists invalidated, or, when the read-back rejects, a 500
    answer with the cache left as it was, stale entries included. *)
Theorem updatePost_outcomes (now : Z) (f : upd_fault)
  (updateOne : jsmap json -> post_doc -> option post_doc)
  (user : option session_user) (postId : string) (body : jsmap json)
  (st st' : post_store) (c c' : cache_store) (r : dresult) :
  updatePost now f updateOne user postId body st c = (r, st', c') ->
  (st' = st /\ c' = c /\ exists s b, r = DJson s b /\ In s [401; 403; 404; 500])
  \/ (exists u d d', user = Some u /\ map_get postId (s_posts st) = Some d
        /\ populated_creator st d = Some (user_id u)
        /\ updateOne (update_set now body) d = Some d'
        /\ st' = mkStore (map_set postId d' (s_posts st)) (s_users st)
        /\ ((f = NoFault /\ r = DPost 200 postId
             /\ c' = invalidateCache "posts" None (invalidateCache "post" (Some postId) c))
            \/ (f = ReadBackRejects
                /\ r = DJson 500 (formatErrorResponse (JSStr "Failed to update post")
                                    (JSStr "INTERNAL_ERROR") JSNull)
                /\ c' = c))).
Proof.
  unfold updatePost. cbv zeta. intros H.
  destruct user as [u|]; [|left; injection H as <- <- <-; split; [reflexivity|];
                          split; [reflexivity|]; eexists _, _; split; [reflexivity | simpl; tauto]].
  assert (Fail : forall s b, In s [401; 403; 404; 500] ->
            (DJson s b, st, c) = (r, st', c') ->
            (st' = st /\ c' = c /\ exists s b, r = DJson s b /\ In s [401; 403; 404; 500])).
  { intros s b Hs E. injection E as <- <- <-. split; [reflexivity|]. split; [reflexivity|].
    exists s, b. split; [reflexivity|exact Hs]. }
  destruct f eqn:Ef;
  [ | left; apply (Fail 500 _ ltac:(simpl; tauto) H) | ];
  (destruct (map_get postId (s_posts st)) as [d|] eqn:G;
     [|left; apply (Fail 404 _ ltac:(simpl; tauto) H)];
   destruct (populated_creator st d) as [cid|] eqn:Pc;
     [|left; apply (Fail 500 _ ltac:(simpl; tauto) H)];
   destruct (String.eqb_spec cid (user_id u)) as [E|Hne]; cbn [negb] in H;
     [subst cid|left; apply (Fail 403 _ ltac:(simpl; tauto) H)];
   destruct (updateOne (update_set now body) d) as [d'|] eqn:U;
     [|left; apply (Fail 500 _ ltac:(simpl; tauto) H)];
   injection H as <- <- <-; right; exists u, d, d'; repeat (split; [reflexivity || assumption|])).
  - left. repeat split.
  - right. repeat split.
Qed.

Lemma updatePost_outcomes_witness :
  exists r st' c',
    updatePost 5 ReadBackRejects (mongo_set "p1") (Some (mkUser "u1" "USER")) "p1"
      [("caption"%string, JSStr "new")]
      (mkStore [("p1"%string, [("creator"%string, JSStr "u1"); ("caption"%string, JSStr "old")])]
               ["u1"%string])
      [("post:p1"%string, mkEntry (JData "old") 100 0)]
    = (r, st', c')
    /\ c' = [("post:p1"%string, mkEntry (JData "old") 100 0)].
Proof.
  eexists _, _, _. split; [reflexivity|].
  destruct (updatePost_outcomes 5 ReadBackRejects (mongo_set "p1") (Some (mkUser "u1" "USER")) "p1"
              [("caption"%string, JSStr "new")]
              (mkStore [("p1"%string, [("creator"%string, JSStr "u1");
                                       ("caption"%string, JSStr "old")])] ["u1"%string])
              _ [("post:p1"%string, mkEntry (JData "old") 100 0)] _ _ eq_refl)
    as [[_ [H _]] | [u [d [d' [_ [_ [_ [_ [_ [[Hf _] | [_ [_ H]]]]]]]]]]]].
  - exact H.
  - discriminate Hf.
  - exact H.
Defined.

(** The [$set] object [updatePost] hands to [updateOne]: [updatedAt] is the
    time of the update, none of the seven image fields is there, [tags]
    given as a non-empty string is the parsed list of tags, and every
    other key of the body is there with the body's value. *)
Theorem update_set_fields (now : Z) (body : jsmap json) (k : string) :
  map_get k (update_set now body)
  = if String.eqb k "updatedAt" then Some (JSNum now)
    else if str_mem k image_fields then None
    else if String.eqb k "tags" then
      match map_get "tags" body with
      | Some (JSStr t) =>
          if String.eqb t "" then Some (JSStr t) else Some (JSArr (map JSStr (parse_tags t)))
      | o => o
      end
    else map_get k body.
Proof.
  unfold update_set. destruct (String.eqb_spec k "updatedAt") as [->|E].
  - apply map_get_set_eq.
  - rewrite map_get_set_neq by congruence. apply post_updates_get.
Qed.

(** [deletePost] either succeeds, for a logged-in user who is the post's
    creator or an ADMIN, removing the post and invalidating "post:P" and
    the posts lists; or it answers 401, 403, 404 or 500 and changes
    neither the store nor the cache. *)
Theorem deletePost_all_or_nothing (dbe : option string) (user : option session_user)
  (postId : string) (st st' : post_store) (c c' : cache_store) (r : dresult) :
  deletePost dbe user postId st c = (r, st', c') ->
  (r = DJson 200 (formatSuccessResponse (msg_body "Post deleted successfully") JSNull)
   /\ dbe = None
   /\ (exists u d cid, user = Some u /\ map_get postId (s_posts st) = Some d
                      /\ populated_creator st d = Some cid
                      /\ (cid = user_id u \/ user_role u = "ADMIN"%string))
   /\ map_get postId (s_posts st') = None
   /\ (forall P, P <> postId -> map_get P (s_posts st') = map_get P (s_posts st))
   /\ s_users st' = s_users st
   /\ c' = invalidateCache "posts" None (invalidateCache "post" (Some postId) c))
  \/ (st' = st /\ c' = c /\ exists s b, r = DJson s b /\ In s [401; 403; 404; 500]).
Proof.
  unfold deletePost. cbv zeta. intros H.
  destruct user as [u|]; [|handler_fails H].
  destruct dbe; [handler_fails H|].
  destruct (map_get postId (s_posts st)) as [d|] eqn:G; [|handler_fails H].
  destruct (populated_creator st d) as [cid|] eqn:Pc; [|handler_fails H].
  destruct (negb (String.eqb cid (user_id u)) && negb (String.eqb (user_role u) "ADMIN"))
    eqn:E; [handler_fails H|].
  injection H as <- <- <-. left. cbn [s_posts s_users].
  split; [reflexivity|]. split; [reflexivity|]. split.
  - exists u, d, cid. repeat split; auto.
    apply andb_false_iff in E as [E|E]; apply negb_false_iff, String.eqb_eq in E; auto.
  - split; [apply map_get_delete_eq|]. split; [|split; reflexivity].
    intros P HP. apply map_get_delete_neq. congruence.
Qed.

Lemma deletePost_all_or_nothing_witness :
  exists st' c',
    deletePost None (Some (mkUser "u2" "ADMIN")) "p1"
      (mkStore [("p1"%string, [("creator"%string, JSStr "u1")])] ["u1"%string]) []
    = (DJson 200 (formatSuccessResponse (msg_body "Post deleted successfully") JSNull), st', c')
    /\ map_get "p1" (s_posts st') = None.
Proof.
  eexists _, _. split; [reflexivity|].
  destruct (deletePost_all_or_nothing None (Some (mkUser "u2" "ADMIN")) "p1"
              (mkStore [("p1"%string, [("creator"%string, JSStr "u1")])] ["u1"%string])
              _ [] _ _ eq_refl) as [[_ [_ [_ [H _]]]]|[H _]].
  - exact H.
  - discriminate H.
Defined.

(** The two handlers check ownership differently: an ADMIN who is not the
    creator of a post is refused its update (403, nothing changed) but may
    delete it. *)
Theorem admin_delete_but_not_update (now : Z) (f : upd_fault)
  (updateOne : jsmap json -> post_doc -> option post_doc) (body : jsmap json)
  (u : session_user) (postId : string) (st : post_store) (c : cache_store)
  (d : post_doc) (cid : string) :
  f <> FindRejects ->
  map_get postId (s_posts st) = Some d -> populated_creator st d = Some cid ->
  cid <> user_id u -> user_role u = "ADMIN"%string ->
  updatePost now f updateOne (Some u) postId body st c
  = (DJson 403 (msg_body "You can only update your own posts"), st, c)
  /\ deletePost None (Some u) postId st c
     = (DJson 200 (formatSuccessResponse (msg_body "Post deleted successfully") JSNull),
        mkStore (map_delete postId (s_posts st)) (s_users st),
        invalidateCache "posts" None (invalidateCache "post" (Some postId) c)).
Proof.
  intros Hf G Pc Hn Ha. unfold updatePost, deletePost. cbv zeta.
  rewrite G, Pc, Ha. apply String.eqb_neq in Hn. rewrite Hn.
  destruct f; [| congruence |]; split; reflexivity.
Qed.

Lemma admin_delete_but_not_update_witness :
  updatePost 5 NoFault (mongo_set "p1") (Some (mkUser "u2" "ADMIN")) "p1" []
    (mkStore [("p1"%string, [("creator"%string, JSStr "u1")])] ["u1"%string]) []
  = (DJson 403 (msg_body "You can only update your own posts"),
     mkStore [("p1"%string, [("creator"%string, JSStr "u1")])] ["u1"%string], []).
Proof.
  exact (proj1 (admin_delete_but_not_update 5 NoFault (mongo_set "p1") [] (mkUser "u2" "ADMIN") "p1"
                  (mkStore [("p1"%string, [("creator"%string, JSStr "u1")])] ["u1"%string])
                  [] [("creator"%string, JSStr "u1")] "u1" ltac:(discriminate) eq_refl eq_refl
                  ltac:(discriminate) eq_refl)).
Defined.

(** * Liking a post *)

(** The early answers of [likePost] leave the world as it was: no user
    (401), no likes array (400), a missing post (404), or a store call
    that rejects (500 with its message, "Failed to like post" for an empty
    one). *)
Theorem likePost_rejections (io : bool) (nd : notif_dao) (req : like_request) (w : world) :
  (lr_currentUser req = None ->
   likePost io nd req w = (Ret (HJson 401 (JData "message:You must be logged in")), w))
  /\ (forall u, lr_currentUser req = Some u -> lr_likesArray req = None ->
      likePost io nd req w = (Ret (HJson 400 (JData "error:likesArray must be an array")), w))
  /\ (forall u l, lr_currentUser req = Some u -> lr_likesArray req = Some l ->
      db_error w = None -> map_get (lr_postId req) (w_db w) = None ->
      likePost io nd req w = (Ret (HJson 404 (JData "error:Post not found")), w))
  /\ (forall u l m, lr_currentUser req = Some u -> lr_likesArray req = Some l ->
      db_error w = Some m ->
      likePost io nd req w
      = (Ret (HJson 500 (JData ("error:" ++
                 (if String.eqb m "" then "Failed to like post" else m)))), w)).
Proof.
  destruct req as [P la cu]; cbn [lr_currentUser lr_likesArray lr_postId].
  unfold likePost, try_catch, bind, ret, dao_findPostById; cbn [lr_currentUser lr_likesArray lr_postId].
  split; [|split; [|split]].
  - intros ->. reflexivity.
  - intros u -> ->. reflexivity.
  - intros u l -> -> He Hg. rewrite He, Hg. reflexivity.
  - intros u l m -> -> He. rewrite He. reflexivity.
Qed.

(** A like that goes through emits exactly these events: the two events
    of the notification block for the post's creator (between the store
    write and the invalidations) when [io] is given, the notification was
    created and found again, and the user was not among the previous
    likes, is among the new ones and is not the creator; then
    ["post-liked"] after the invalidations when [io] is given. Without
    [io], as [PostRoutes] is called everywhere in the repository, no event
    is emitted at all. *)
Theorem likePost_notifies_iff (io : bool) (nd : notif_dao) (P u : string)
  (l : list string) (p : post) (db : post_db) (c : cache_store) (lg : list effect) :
  P <> ""%string -> map_get P db = Some p -> post_id p = P ->
  w_log (snd (likePost io nd (mkLikeRequest P (Some l) (Some u)) (mkWorld db c lg None None)))
  = lg ++ [EffDbWrite P]
    ++ (if io && notification_found nd
           && negb (str_mem u (normalize_likes (likes p))) && str_mem u (normalize_likes l)
           && negb (String.eqb (creator p) u)
        then [EffEmit ("user-" ++ creator p) "new-notification";
              EffEmit ("user-" ++ creator p) "notification-count-updated"]
        else [])
    ++ [EffInvalidate "post" (Some P); EffInvalidate "posts" None]
    ++ (if io then [EffEmit "*" "post-liked"] else []).
Proof.
  intros HP Hg Hid.
  assert (HPe : String.eqb P "" = false) by (now apply String.eqb_neq).
  unfold likePost, try_catch, bind, ret, dao_findPostById, dao_likePost.
  repeat progress (simpl; rewrite ?Hg, ?Hid, ?map_get_set_eq).
  destruct (str_mem u (normalize_likes (likes p))), (str_mem u (normalize_likes l)),
    (String.eqb (creator p) u); simpl;
    rewrite ?notify_like_spec by reflexivity; simpl;
    unfold invalidateCacheM, bind, log_effect, cache_delete; simpl; rewrite HPe; simpl;
    rewrite delPatternM_pure by reflexivity; simpl;
    destruct io, (notification_found nd); unfold emit, log_effect; simpl;
    now rewrite <- !app_assoc.
Qed.

Lemma likePost_notifies_iff_witness :
  w_log (snd (likePost false (mkNotifDao None None true)
                (mkLikeRequest "p1" (Some ["bob"%string]) (Some "bob"%string))
                (mkWorld [("p1"%string, mkPost "p1" "alice" [])] [] [] None None)))
  = [EffDbWrite "p1"; EffInvalidate "post" (Some "p1"%string); EffInvalidate "posts" None].
Proof.
  exact (likePost_notifies_iff false (mkNotifDao None None true) "p1" "bob" ["bob"%string]
           (mkPost "p1" "alice" []) [("p1"%string, mkPost "p1" "alice" [])] [] []
           ltac:(discriminate) eq_refl eq_refl).
Defined.

(** * Typing indicators, messages and read receipts *)

Lemma count_emitted (l : list string) (ev ev' pl s : string) :
  length (filter (fun d => String.eqb (to_socket d) s && String.eqb (ev_name d) ev')
                 (map (fun x => mkDelivery x ev pl) l))
  = if String.eqb ev ev' then length (filter (fun x => String.eqb x s) l) else O.
Proof.
  induction l as [|x r IH]; simpl; [now destruct (String.eqb ev ev')|].
  destruct (String.eqb x s), (String.eqb ev ev'); simpl; rewrite IH; reflexivity.
Qed.

Lemma count_NoDup (l : list string) (s : string) :
  NoDup l -> length (filter (fun x => String.eqb x s) l) = if str_mem s l then 1%nat else O.
Proof.
  induction l as [|x r IH]; [reflexivity|]. intros Hn. apply NoDup_cons_iff in Hn as [Hx Hn].
  cbn [filter]. unfold str_mem. cbn [existsb]. fold (str_mem s r).
  destruct (String.eqb_spec x s) as [->|E].
  - rewrite String.eqb_refl. cbn [length orb]. rewrite IH by exact Hn.
    destruct (str_mem s r) eqn:M; [apply str_mem_In in M; contradiction|reflexivity].
  - assert (Hse : String.eqb s x = false) by (apply String.eqb_neq; congruence).
    rewrite Hse. cbn [orb]. now apply IH.
Qed.

(** The deliveries of [emitToUser] with a given event name that reach a
    socket [s], after any run of the connection handlers. *)
Lemma count_emitToUser (tr : list sock_event) (U ev ev' pl s : string) :
  U <> ""%string ->
  length (filter (fun d => String.eqb (to_socket d) s && String.eqb (ev_name d) ev')
                 (emitToUser (sock_run tr) U ev pl))
  = if String.eqb ev ev' then (if registered_for U s tr then 1%nat else O) else O.
Proof.
  intros HU. destruct (room_invariant tr U HU) as [Hn Hi].
  unfold emitToUser. rewrite count_emitted.
  destruct (String.eqb ev ev'); [|reflexivity].
  rewrite count_NoDup by exact Hn.
  destruct (str_mem s _) eqn:M; destruct (registered_for U s tr) eqn:R; try reflexivity.
  - apply str_mem_In, Hi in M. congruence.
  - apply Hi, str_mem_In in R. congruence.
Qed.

(** [typing] reaches every socket registered for the receiver except the
    socket the event came from, each once, with the sender's id. *)
Theorem typing_skips_sender (tr : list sock_event) (sid R S : string) :
  R <> ""%string -> S <> ""%string ->
  NoDup (map to_socket (typing (sock_run tr) sid R S))
  /\ (forall s, In s (map to_socket (typing (sock_run tr) sid R S))
                <-> s <> sid /\ registered_for R s tr = true)
  /\ Forall (fun d => ev_name d = "user-typing"%string /\ ev_payload d = S)
            (typing (sock_run tr) sid R S).
Proof.
  intros HR HS. destruct (room_invariant tr R HR) as [Hn Hi].
  unfold typing. apply String.eqb_neq in HR, HS. rewrite HR, HS. cbn [negb andb].
  rewrite map_map. cbn [to_socket]. rewrite map_id.
  split; [|split].
  - now apply NoDup_filter.
  - intros s. rewrite filter_In, <- Hi, negb_true_iff, String.eqb_neq. tauto.
  - apply Forall_forall. intros d Hd. apply in_map_iff in Hd as [x [<- _]]. split; reflexivity.
Qed.

Lemma typing_skips_sender_witness :
  In "s2"%string (map to_socket (typing (sock_run [Authenticate "s1" "bob"; Authenticate "s2" "bob"])
                                   "s1" "bob" "alice")).
Proof.
  apply (proj2 (proj1 (proj2 (typing_skips_sender [Authenticate "s1" "bob"; Authenticate "s2" "bob"]
                "s1" "bob" "alice" ltac:(discriminate) ltac:(discriminate))) "s2"%string)).
  split; [discriminate | reflexivity].
Defined.

Lemma js_trim_empty : js_trim "" = ""%string.
Proof. reflexivity. Qed.

(** [send-message] with a missing id or content, or with a content made of
    white space only (stored trimmed, it fails the schema's [required]),
    answers one error to the sending socket and stores nothing. *)
Theorem send_message_rejects (now : Z) (st : io_state) (sid S R content : string)
  (dbe : option string) (msgs : list message) :
  (S = ""%string \/ R = ""%string \/ js_trim content = ""%string) ->
  send_message now st sid S R content dbe msgs
  = ([mkDelivery sid "error"
        (if String.eqb S "" || String.eqb R "" || String.eqb content ""
         then "Missing required fields" else "Failed to send message")], msgs).
Proof.
  intros H. unfold send_message.
  destruct (String.eqb S "" || String.eqb R "" || String.eqb content "") eqn:E; [reflexivity|].
  apply orb_false_iff in E as [E E3]. apply orb_false_iff in E as [E1 E2].
  destruct H as [H|[H|H]].
  - subst S. discriminate E1.
  - subst R. discriminate E2.
  - destruct dbe; [reflexivity|]. rewrite H. reflexivity.
Qed.

Lemma send_message_rejects_witness :
  fst (send_message 0 io_init "s1" "alice" "bob" "  " None [])
  = [mkDelivery "s1" "error" "Failed to send message"].
Proof.
  rewrite (send_message_rejects 0 io_init "s1" "alice" "bob" "  " None []
             (or_intror (or_intror eq_refl))).
  reflexivity.
Defined.

(** A message that is sent: it is stored, trimmed and unread; every socket
    registered for the receiver gets "new-message" once, the sending
    socket gets "message-sent" once, and each socket gets
    "conversation-updated" once per side (sender, receiver) it is
    registered for: twice when a user writes to themselves. *)
Theorem send_message_deliveries (now : Z) (tr : list sock_event) (sid S R content : string)
  (msgs msgs' : list message) (ds : list delivery) :
  S <> ""%string -> R <> ""%string -> js_trim content <> ""%string ->
  send_message now (sock_run tr) sid S R content None msgs = (ds, msgs') ->
  msgs' = msgs ++ [mkMessage S R (js_trim content) false now]
  /\ (forall s, length (filter (fun d => String.eqb (to_socket d) s
                                      && String.eqb (ev_name d) "new-message") ds)
                = if registered_for R s tr then 1%nat else O)
  /\ (forall s, length (filter (fun d => String.eqb (to_socket d) s
                                      && String.eqb (ev_name d) "message-sent") ds)
                = if String.eqb sid s then 1%nat else O)
  /\ (forall s, length (filter (fun d => String.eqb (to_socket d) s
                                      && String.eqb (ev_name d) "conversation-updated") ds)
                = ((if registered_for S s tr then 1 else 0)
                   + (if registered_for R s tr then 1 else 0))%nat).
Proof.
  intros HS HR HC H. unfold send_message in H.
  assert (Hc : content <> ""%string) by (intros ->; apply HC, js_trim_empty).
  apply String.eqb_neq in HS, Hc. pose proof HR as HR'. apply String.eqb_neq in HR'.
  pose proof HC as HC'. apply String.eqb_neq in HC'.
  rewrite HS, HR', Hc, HC' in H. cbn [orb] in H.
  injection H as <- <-. split; [reflexivity|].
  split; [|split]; intros s; rewrite !filter_app, !length_app;
    cbn [filter length to_socket ev_name]; simpl String.eqb;
    destruct (String.eqb sid s); cbn [andb length];
    rewrite ?filter_app, ?length_app;
    rewrite !count_emitToUser by (apply String.eqb_neq in HS; congruence);
    simpl String.eqb;
    destruct (registered_for R s tr), (registered_for S s tr); cbn [length]; lia.
Qed.

Lemma send_message_deliveries_witness :
  length (filter (fun d => String.eqb (to_socket d) "s1"
                           && String.eqb (ev_name d) "conversation-updated")
            (fst (send_message 0 (sock_run [Authenticate "s1" "alice"]) "s1"
                    "alice" "alice" "hi" None [])))
  = 2%nat.
Proof.
  destruct (send_message_deliveries 0 [Authenticate "s1" "alice"] "s1" "alice" "alice" "hi"
              [] _ _ ltac:(discriminate) ltac:(discriminate) ltac:(discriminate) eq_refl)
    as [_ [_ [_ H]]].
  rewrite H. reflexivity.
Defined.

Lemma set_add_all_fold (l acc : list string) :
  NoDup acc ->
  NoDup (fold_left (fun acc x => if str_mem x acc then acc else acc ++ [x]) l acc)
  /\ (forall y, In y (fold_left (fun acc x => if str_mem x acc then acc else acc ++ [x]) l acc)
                <-> In y acc \/ In y l).
Proof.
  revert acc. induction l as [|x r IH]; intros acc Hn; cbn [fold_left].
  - split; [exact Hn|]. intros y. simpl. tauto.
  - destruct (str_mem x acc) eqn:M.
    + destruct (IH acc Hn) as [H1 H2]. split; [exact H1|]. intros y. rewrite H2.
      apply str_mem_In in M. simpl. split; [tauto|]. intros [H|[<-|H]]; auto.
    + assert (Hn' : NoDup (acc ++ [x])).
      { apply NoDup_app; auto using NoDup_cons, NoDup_nil.
        intros y Hy [<-|[]]. apply str_mem_In in Hy. congruence. }
      destruct (IH _ Hn') as [H1 H2]. split; [exact H1|]. intros y. rewrite H2, in_app_iff.
      simpl. tauto.
Qed.

Lemma set_add_all_spec (l : list string) :
  NoDup (set_add_all l) /\ (forall y, In y (set_add_all l) <-> In y l).
Proof.
  destruct (set_add_all_fold l [] (NoDup_nil _)) as [H1 H2].
  split; [exact H1|]. intros y. unfold set_add_all. rewrite H2. simpl. tauto.
Qed.

(** The size of the set of [l] without [p], plus one if [p] is in [l], is
    the size of the set of [l]. *)
Lemma set_add_all_remove (l : list string) (p : string) :
  (length (set_add_all (filter (fun x => negb (String.eqb x p)) l))
   + (if str_mem p l then 1 else 0))%nat
  = length (set_add_all l).
Proof.
  destruct (set_add_all_spec l) as [Na Ia].
  destruct (set_add_all_spec (filter (fun x => negb (String.eqb x p)) l)) as [Nb Ib].
  destruct (str_mem p l) eqn:M.
  - apply str_mem_In in M.
    assert (Hp : Permutation (p :: set_add_all (filter (fun x => negb (String.eqb x p)) l))
                             (set_add_all l)).
    { apply NoDup_Permutation.
      - constructor; [|exact Nb]. rewrite Ib, filter_In, String.eqb_refl. intros [_ H]. discriminate H.
      - exact Na.
      - intros y. simpl. rewrite Ia, Ib, filter_In, negb_true_iff, String.eqb_neq.
        split; [intros [<-|[H _]]; auto|].
        intros H. destruct (String.eqb_spec y p); [left; congruence|right; auto]. }
    apply Permutation_length in Hp. simpl in Hp. lia.
  - assert (Hp : Permutation (set_add_all (filter (fun x => negb (String.eqb x p)) l))
                             (set_add_all l)).
    { apply NoDup_Permutation; [exact Nb|exact Na|].
      intros y. rewrite Ia, Ib, filter_In, negb_true_iff, String.eqb_neq.
      split; [tauto|]. intros H. split; [exact H|]. intros ->.
      apply str_mem_In in H. congruence. }
    apply Permutation_length in Hp. lia.
Qed.

Lemma set_add_all_snoc (l : list string) (x : string) :
  length (set_add_all (l ++ [x]))
  = (length (set_add_all l) + (if str_mem x l then 0 else 1))%nat.
Proof.
  unfold set_add_all at 1. rewrite fold_left_app. cbn [fold_left]. fold (set_add_all l).
  destruct (set_add_all_spec l) as [_ Ia].
  assert (E : str_mem x (set_add_all l) = str_mem x l).
  { destruct (str_mem x l) eqn:M.
    - apply str_mem_In, Ia in M. now apply str_mem_In.
    - destruct (str_mem x (set_add_all l)) eqn:M'; [|reflexivity].
      apply str_mem_In, Ia, str_mem_In in M'. congruence. }
  rewrite E. destruct (str_mem x l); [lia|]. rewrite length_app. reflexivity.
Qed.

Lemma map_sender_filter (p : string) (l : list message) :
  map m_sender (filter (fun m => negb (String.eqb (m_sender m) p)) l)
  = filter (fun x => negb (String.eqb x p)) (map m_sender l).
Proof.
  induction l as [|m r IH]; [reflexivity|]. cbn [filter map].
  destruct (negb (String.eqb (m_sender m) p)); cbn [map]; now rewrite IH.
Qed.

Lemma unread_for_mark (u p : string) (msgs : list message) :
  unread_for u (markMessagesAsRead u p msgs)
  = filter (fun m => negb (String.eqb (m_sender m) p)) (unread_for u msgs).
Proof.
  induction msgs as [|[s r c rd t] ms IH]; [reflexivity|].
  unfold unread_for, markMessagesAsRead in *. simpl.
  destruct (String.eqb s p) eqn:E1, (String.eqb r u) eqn:E2, rd, (String.eqb s u) eqn:E3;
    simpl; rewrite ?E1, ?E2, ?E3; simpl; rewrite ?IH; reflexivity.
Qed.

Lemma unread_for_mark_other (u u' p : string) (msgs : list message) :
  u' <> u -> unread_for u' (markMessagesAsRead u p msgs) = unread_for u' msgs.
Proof.
  intros Hu. induction msgs as [|[s r c rd t] ms IH]; [reflexivity|].
  unfold unread_for, markMessagesAsRead in *. cbn [map filter m_sender m_receiver m_read].
  rewrite IH.
  destruct (String.eqb s p && String.eqb r u && negb rd) eqn:E; [|reflexivity].
  cbn [m_sender m_receiver m_read].
  apply andb_true_iff in E as [E _]. apply andb_true_iff in E as [_ E].
  apply String.eqb_eq in E. subst r.
  assert (Hn : String.eqb u u' = false) by (apply String.eqb_neq; congruence).
  rewrite Hn. reflexivity.
Qed.

(** [mark-read] from user [u] for partner [p]: afterwards [u] has no unread
    message from [p] and the other unread messages of [u] stay as they
    were, so [u]'s unread count drops by one exactly when [p] was among
    its unread senders; the unread messages of any other user are
    untouched, and only [read] flags change. *)
Theorem mark_read_clears_partner (st : io_state) (u p : string) (msgs msgs' : list message)
  (ds : list delivery) :
  u <> ""%string -> p <> ""%string ->
  mark_read st u p None msgs = (ds, msgs') ->
  unread_for u msgs' = filter (fun m => negb (String.eqb (m_sender m) p)) (unread_for u msgs)
  /\ (getUnreadMessageCount u msgs'
      + (if str_mem p (map m_sender (unread_for u msgs)) then 1 else 0))%nat
     = getUnreadMessageCount u msgs
  /\ (forall u', u' <> u -> unread_for u' msgs' = unread_for u' msgs)
  /\ map (fun m => (m_sender m, m_receiver m, m_content m, m_createdAt m)) msgs'
     = map (fun m => (m_sender m, m_receiver m, m_content m, m_createdAt m)) msgs.
Proof.
  intros Hu Hp H. unfold mark_read in H.
  apply String.eqb_neq in Hu, Hp. rewrite Hu, Hp in H. cbn [orb] in H.
  injection H as _ <-.
  split; [apply unread_for_mark|]. split; [|split].
  - unfold getUnreadMessageCount. rewrite unread_for_mark, map_sender_filter.
    apply set_add_all_remove.
  - intros u' Hu'. now apply unread_for_mark_other.
  - unfold markMessagesAsRead. rewrite map_map. apply map_ext. intros m.
    destruct (_ && _ && _); reflexivity.
Qed.

Lemma mark_read_clears_partner_witness :
  (getUnreadMessageCount "bob"
     (snd (mark_read io_init "bob" "alice" None
             [mkMessage "alice" "bob" "hi" false 1; mkMessage "carol" "bob" "yo" false 2]))
   + 1)%nat
  = getUnreadMessageCount "bob"
      [mkMessage "alice" "bob" "hi" false 1; mkMessage "carol" "bob" "yo" false 2].
Proof.
  destruct (mark_read_clears_partner io_init "bob" "alice"
              [mkMessage "alice" "bob" "hi" false 1; mkMessage "carol" "bob" "yo" false 2]
              _ _ ltac:(discriminate) ltac:(discriminate) (surjective_pairing _)) as [_ [H _]].
  exact H.
Defined.

(** A message sent to another user counts for the receiver's unread
    count: the count grows by one exactly when the sender had no unread
    message to the receiver yet. *)
Theorem send_message_unread_count (now : Z) (st : io_state) (sid S R content : string)
  (msgs msgs' : list message) (ds : list delivery) :
  S <> ""%string -> R <> ""%string -> S <> R -> js_trim content <> ""%string ->
  send_message now st sid S R content None msgs = (ds, msgs') ->
  getUnreadMessageCount R msgs'
  = (getUnreadMessageCount R msgs
     + (if str_mem S (map m_sender (unread_for R msgs)) then 0 else 1))%nat.
Proof.
  intros HS HR HSR HC H. unfold send_message in H.
  assert (Hc : content <> ""%string) by (intros ->; apply HC, js_trim_empty).
  apply String.eqb_neq in HS, HR, Hc. rewrite HS, HR, Hc in H. cbn [orb] in H.
  apply String.eqb_neq in HC. rewrite HC in H. injection H as _ <-.
  unfold getUnreadMessageCount, unread_for. rewrite filter_app. cbn [filter].
  cbn [m_receiver m_sender m_read]. rewrite String.eqb_refl.
  assert (Hn : String.eqb S R = false) by (now apply String.eqb_neq).
  rewrite Hn. cbn [negb andb]. rewrite map_app. cbn [map m_sender].
  apply set_add_all_snoc.
Qed.

Lemma send_message_unread_count_witness :
  getUnreadMessageCount "bob"
    (snd (send_message 3 io_init "s1" "alice" "bob" " hi " None
            [mkMessage "carol" "bob" "yo" false 2]))
  = 2%nat.
Proof.
  rewrite (send_message_unread_count 3 io_init "s1" "alice" "bob" " hi "
             [mkMessage "carol" "bob" "yo" false 2] _ _ ltac:(discriminate)
             ltac:(discriminate) ltac:(discriminate) ltac:(discriminate)
             (surjective_pairing _)).
  reflexivity.
Defined.

(** * Normalising ids *)

(** [normalizeId] on an object keeps the id [extractId] finds, makes
    [_id] hold it whenever there is one, touches no other field, and is
    idempotent. *)
Theorem normalizeId_spec (f : list (string * json)) :
  extractId (normalizeId (JSObj f)) = extractId (JSObj f)
  /\ (truthy (extractId (JSObj f)) = true ->
      prop "_id" (normalizeId (JSObj f)) = extractId (JSObj f))
  /\ (forall k, k <> "_id"%string -> prop k (normalizeId (JSObj f)) = prop k (JSObj f))
  /\ normalizeId (normalizeId (JSObj f)) = normalizeId (JSObj f).
Proof.
  assert (Hn : forall g, normalizeId (JSObj g)
                 = if truthy (extractId (JSObj g)) && negb (truthy (prop "_id" (JSObj g)))
                   then JSObj (map_set "_id" (extractId (JSObj g)) g) else JSObj g)
    by reflexivity.
  assert (Hx : forall g x, truthy x = true ->
                 extractId (JSObj (map_set "_id" x g)) = x).
  { intros g x Tx. unfold extractId, js_or, prop. rewrite map_get_set_eq.
    change (truthy (JSObj (map_set "_id" x g))) with true. cbv beta iota.
    rewrite Tx. cbv beta iota. rewrite Tx. cbv beta iota. rewrite Tx. reflexivity. }
  rewrite !Hn.
  remember (extractId (JSObj f)) as id eqn:Hid.
  destruct (truthy id) eqn:Ti; cbn [andb].
  - destruct (truthy (prop "_id" (JSObj f))) eqn:T0; cbn [negb].
    + (* [_id] is truthy: it is the id, nothing changes *)
      assert (E : id = prop "_id" (JSObj f)).
      { subst id. unfold extractId, js_or. change (truthy (JSObj f)) with true.
        cbv beta iota. rewrite T0. cbv beta iota. rewrite T0. cbv beta iota.
        rewrite T0. reflexivity. }
      rewrite !Hn, <- Hid, Ti, T0. cbn [andb negb].
      split; [reflexivity|]. split; [intros _; exact (eq_sym E)|].
      split; [reflexivity|reflexivity].
    + rewrite Hx by exact Ti. split; [reflexivity|].
      split; [intros _; unfold prop; now rewrite map_get_set_eq|].
      split.
      * intros k Hk. unfold prop. rewrite map_get_set_neq by congruence. reflexivity.
      * rewrite Hn, Hx by exact Ti. rewrite Ti.
        assert (P0 : truthy (prop "_id" (JSObj (map_set "_id" id f))) = true).
        { unfold prop. now rewrite map_get_set_eq. }
        rewrite P0. reflexivity.
  - rewrite Hn, <- Hid, Ti. cbn [andb].
    split; [reflexivity|]. split; [discriminate|]. split; reflexivity.
Qed.
